(** * Discovergy sensor platform: a shallow embedding and its properties

    Source: [homeassistant/components/discovergy/sensor.py].

    The Python module is embedded as a state-and-exception monad over a
    [World] that holds what the module reads and writes: the vendor cloud
    behind the API client, the module-level description tables, the
    coordinator objects (shared by reference between the setup routine, the
    host's polling and the entities), the [DiscovergyData] of the
    configuration entry, and the entities handed to the host.

    Numbers follow Python: readings are [int] or [float], [/] is true
    division into a binary64 float ([Floats.SpecFloat], precision 53,
    exponent bound 1024), and faults are Python exceptions. *)

From Stdlib Require Import ZArith Lia Ascii String Floats.SpecFloat.
From stdpp Require Import base option list strings gmap.

(** ** Python values: exceptions *)

(** The exception classes the module names or can meet.  [OtherException]
    stands for every further subclass of [Exception].  What is raised
    outside [Exception] (the cancellation of a task, a keyboard interrupt)
    is no failure of a call and is left out: [except Exception] lets it
    pass. *)
Inductive exn_class :=
  | AccessTokenExpired
  | HTTPError
  | ConfigEntryAuthFailed
  | UpdateFailed
  | KeyError
  | ZeroDivisionError
  | OverflowError
  | AttributeError
  | OtherException (name : string).

#[global] Instance exn_class_eq_dec : EqDecision exn_class.
Proof. solve_decision. Defined.

(** An exception object: its class, [str(err)], and [__cause__] as set by
    [raise ... from err]. *)
#[warnings="-register-all"]
Inductive exn :=
  | Exn (cls : exn_class) (msg : string) (cause : option exn).

Definition exn_cls (e : exn) : exn_class := let 'Exn c _ _ := e in c.
Definition exn_str (e : exn) : string := let 'Exn _ s _ := e in s.

(** The result of running Python code: a value, a raised exception, or
    [Stuck] when the model follows a reference to no object (Python has no
    such state; reachable worlds never get there, see [native_value_runs]). *)
Inductive outcome (A : Type) :=
  | Ok (a : A)
  | Raise (e : exn)
  | Stuck.
Arguments Ok {A} a.
Arguments Raise {A} e.
Arguments Stuck {A}.

Definition raises {A} (c : exn_class) (o : outcome A) : Prop :=
  match o with Raise e => exn_cls e = c | _ => False end.

(** ** Python values: numbers *)

Definition prec : Z := 53.
Definition emax : Z := 1024.

Inductive PyNum :=
  | PyInt (n : Z)
  | PyFloat (x : spec_float).

(** [float(n)] for an int: nearest binary64, [OverflowError] beyond range. *)
Definition int_to_float (n : Z) : outcome spec_float :=
  match binary_normalize prec emax n 0 false with
  | S754_infinity _ =>
      Raise (Exn OverflowError "int too large to convert to float" None)
  | x => Ok x
  end.

(** [a / b] on ints: the exact quotient rounded once to binary64. *)
Definition int_true_divide (a b : Z) : outcome spec_float :=
  if (b =? 0)%Z then Raise (Exn ZeroDivisionError "division by zero" None)
  else
    match a with
    | Z0 => Ok (S754_zero (b <? 0)%Z)
    | _ =>
        match SFdiv prec emax
                (S754_finite (a <? 0)%Z (Z.to_pos (Z.abs a)) 0)
                (S754_finite (b <? 0)%Z (Z.to_pos (Z.abs b)) 0) with
        | S754_infinity _ =>
            Raise (Exn OverflowError
                     "integer division result too large for a float" None)
        | q => Ok q
        end
    end.

(** [x / b] for a float [x] and an int [b]: [b] is converted first. *)
Definition float_true_divide (x : spec_float) (b : Z) : outcome spec_float :=
  match int_to_float b with
  | Ok y =>
      if (b =? 0)%Z
      then Raise (Exn ZeroDivisionError "float division by zero" None)
      else Ok (SFdiv prec emax x y)
  | Raise e => Raise e
  | Stuck => Stuck
  end.

(** [v / scale] where [scale] is an int (the type of the [scale] field). *)
Definition py_truediv (v : PyNum) (scale : Z) : outcome PyNum :=
  match v with
  | PyInt a =>
      match int_true_divide a scale with
      | Ok q => Ok (PyFloat q) | Raise e => Raise e | Stuck => Stuck
      end
  | PyFloat x =>
      match float_true_divide x scale with
      | Ok q => Ok (PyFloat q) | Raise e => Raise e | Stuck => Stuck
      end
  end.

(** [float(v)]. *)
Definition py_float (v : PyNum) : outcome spec_float :=
  match v with
  | PyInt n => int_to_float n
  | PyFloat x => Ok x
  end.

(** [str.capitalize] on ASCII text: first character upper case, the rest
    lower case.  A Python [str] is a sequence of code points and
    [str.capitalize] follows the Unicode case mappings; the strings here
    are byte strings, and [capitalize] maps the letters [a]-[z] and [A]-[Z]
    only.  It is [str.capitalize] on the strings for which [str.isascii]
    holds ([isascii] below), and on no other: what is stated about
    [capitalize] is stated for such strings. *)
Definition ascii_upper (c : ascii) : ascii :=
  let n := nat_of_ascii c in
  if (97 <=? n)%nat && (n <=? 122)%nat then ascii_of_nat (n - 32) else c.
Definition ascii_lower (c : ascii) : ascii :=
  let n := nat_of_ascii c in
  if (65 <=? n)%nat && (n <=? 90)%nat then ascii_of_nat (n + 32) else c.
Fixpoint string_map (f : ascii -> ascii) (s : string) : string :=
  match s with
  | EmptyString => EmptyString
  | String c s' => String (f c) (string_map f s')
  end.
Definition capitalize (s : string) : string :=
  match s with
  | EmptyString => EmptyString
  | String c s' => String (ascii_upper c) (string_map ascii_lower s')
  end.

(** [str.isascii]: every character is below 128. *)
Fixpoint isascii (s : string) : bool :=
  match s with
  | EmptyString => true
  | String c s' => (nat_of_ascii c <? 128)%nat && isascii s'
  end.

(** ** The data model *)

(** Host enumerations, restricted to the members the tables use:
    [UnitOfVolume.CUBIC_METERS], [UnitOfPower.WATT],
    [UnitOfElectricPotential.VOLT], [UnitOfEnergy.KILO_WATT_HOUR]. *)
Inductive UnitOfMeasurement := CUBIC_METERS | WATT | VOLT | KILO_WATT_HOUR.
Inductive SensorDeviceClass := GAS | POWER | VOLTAGE | ENERGY.
Inductive SensorStateClass := TOTAL_INCREASING | MEASUREMENT.

#[global] Instance SensorDeviceClass_eq_dec : EqDecision SensorDeviceClass.
Proof. solve_decision. Defined.

(** [DiscovergySensorEntityDescription]: the host's description fields the
    tables set, and the two fields of [DiscovergyMixin].
    [entity_registry_enabled_default] is [None] where the table does not
    pass it (the host's default then applies). *)
Record DiscovergySensorEntityDescription := {
  key : string;
  translation_key : string;
  native_unit_of_measurement : UnitOfMeasurement;
  suggested_display_precision : Z;
  device_class : SensorDeviceClass;
  state_class : SensorStateClass;
  entity_registry_enabled_default : option bool;
  alternative_keys : list string;
  scale : Z;
}.

(** The [default_factory] values of [DiscovergyMixin]. *)
Definition DiscovergyMixin_alternative_keys : list string := [].
Definition DiscovergyMixin_scale : Z := 1000.

(** Vendor model [Meter], with the attributes the module reads;
    [meter_id] is the identifier that [get_meter_id()] returns. *)
Record Location := {
  street : string;
  street_number : string;
}.

Record Meter := {
  meter_id : string;
  full_serial_number : string;
  meter_type : string;
  measurement_type : string;
  location : Location;
}.

Definition get_meter_id (m : Meter) : string := meter_id m.

(** Vendor model [Reading]: a time stamp and the named raw values. *)
Record Reading := {
  time : Z;
  values : gmap string PyNum;
}.

(** The host's [ConfigEntry], with what the module reads of it. *)
Record ConfigEntry := {
  entry_id : string;
  options : gmap string Z;
}.

(** Objects live at addresses; an object reference is its address. *)
Abbreviation loc := nat.

(** Modelled from the spec: the host's [DataUpdateCoordinator] ("owns the
    polling lifecycle and the most recently fetched Reading").  The
    [update_method] closure [async_update_data] is stored as the meter it
    captured; [update_interval] is the [timedelta] in seconds. *)
Record DataUpdateCoordinator := {
  name : string;
  update_meter : Meter;
  update_interval : Z;
  config_entry : option ConfigEntry;
  data : option Reading;
  last_update_success : bool;
}.

Definition set_config_entry (e : ConfigEntry) (c : DataUpdateCoordinator)
  : DataUpdateCoordinator :=
  {| name := name c; update_meter := update_meter c;
     update_interval := update_interval c; config_entry := Some e;
     data := data c; last_update_success := last_update_success c |}.

Definition set_data (r : Reading) (c : DataUpdateCoordinator)
  : DataUpdateCoordinator :=
  {| name := name c; update_meter := update_meter c;
     update_interval := update_interval c; config_entry := config_entry c;
     data := Some r; last_update_success := last_update_success c |}.

Definition set_last_update_success (b : bool) (c : DataUpdateCoordinator)
  : DataUpdateCoordinator :=
  {| name := name c; update_meter := update_meter c;
     update_interval := update_interval c; config_entry := config_entry c;
     data := data c; last_update_success := b |}.

(** A reference to a description object: the module-level tuple that holds
    it and its position there. *)
Inductive SensorTable := GasTable | ElectricityTable.

#[global] Instance SensorTable_eq_dec : EqDecision SensorTable.
Proof. solve_decision. Defined.

Definition desc_ref : Type := SensorTable * nat.

Record DeviceInfo := {
  identifiers : list (string * string);
  device_name : string;
  model : string;
  manufacturer : string;
}.

(** A [DiscovergySensor] object.  It holds references to its coordinator
    and to its description, not copies. *)
Record DiscovergySensor := {
  coordinator : loc;
  data_key : string;
  entity_description : desc_ref;
  unique_id : string;
  device_info : DeviceInfo;
}.

(** What happened, oldest first.  The trace is kept beside the state to
    speak about the order of the effects; no operation reads it. *)
Inductive Event :=
  | CoordinatorCreated (l : loc) (m : Meter)
  | ApiCalled (id : string)
  | FirstRefreshed (l : loc)
  | Refreshed (l : loc) (ok : bool)
  | CoordinatorStored (id : string) (l : loc)
  | EntityBuilt (e : DiscovergySensor)
  | EntitiesAdded (es : list DiscovergySensor) (update_before_add : bool).

(** ** The environment *)

(** What the vendor call returns. *)
Inductive fetched :=
  | Fetched (r : Reading)
  | Failed (e : exn).

(** The vendor client [Discovergy]: [get_last_reading] on a meter id
    answers and moves the cloud to its next state. *)
Class Discovergy (Api : Type) :=
  get_last_reading : Api -> string -> fetched * Api.

(** The constants of [.const], which the module imports. *)
Class Const := {
  DOMAIN : string;
  MANUFACTURER : string;
  CONF_TIME_BETWEEN_UPDATE : string;
  DEFAULT_TIME_BETWEEN_UPDATE : Z;
}.

(** ** The description tables, as the module builds them at load time *)

Definition GAS_SENSORS : list DiscovergySensorEntityDescription := [
  {| key := "volume";
     translation_key := "total_gas_consumption";
     suggested_display_precision := 4;
     native_unit_of_measurement := CUBIC_METERS;
     device_class := GAS;
     state_class := TOTAL_INCREASING;
     entity_registry_enabled_default := None;
     alternative_keys := DiscovergyMixin_alternative_keys;
     scale := DiscovergyMixin_scale |}
].

Definition ELECTRICITY_SENSORS : list DiscovergySensorEntityDescription := [
  (* power sensors *)
  {| key := "power";
     translation_key := "total_power";
     native_unit_of_measurement := WATT;
     suggested_display_precision := 3;
     device_class := POWER;
     state_class := MEASUREMENT;
     entity_registry_enabled_default := None;
     alternative_keys := DiscovergyMixin_alternative_keys;
     scale := DiscovergyMixin_scale |};
  {| key := "power1";
     translation_key := "phase_1_power";
     native_unit_of_measurement := WATT;
     suggested_display_precision := 3;
     device_class := POWER;
     state_class := MEASUREMENT;
     entity_registry_enabled_default := Some false;
     alternative_keys := ["phase1Power"];
     scale := DiscovergyMixin_scale |};
  {| key := "power2";
     translation_key := "phase_2_power";
     native_unit_of_measurement := WATT;
     suggested_display_precision := 3;
     device_class := POWER;
     state_class := MEASUREMENT;
     entity_registry_enabled_default := Some false;
     alternative_keys := ["phase2Power"];
     scale := DiscovergyMixin_scale |};
  {| key := "power3";
     translation_key := "phase_3_power";
     native_unit_of_measurement := WATT;
     suggested_display_precision := 3;
     device_class := POWER;
     state_class := MEASUREMENT;
     entity_registry_enabled_default := Some false;
     alternative_keys := ["phase3Power"];
     scale := DiscovergyMixin_scale |};
  (* voltage sensors *)
  {| key := "phase1Voltage";
     translation_key := "phase_1_voltage";
     native_unit_of_measurement := VOLT;
     suggested_display_precision := 1;
     device_class := VOLTAGE;
     state_class := MEASUREMENT;
     entity_registry_enabled_default := Some false;
     alternative_keys := DiscovergyMixin_alternative_keys;
     scale := DiscovergyMixin_scale |};
  {| key := "phase2Voltage";
     translation_key := "phase_2_voltage";
     native_unit_of_measurement := VOLT;
     suggested_display_precision := 1;
     device_class := VOLTAGE;
     state_class := MEASUREMENT;
     entity_registry_enabled_default := Some false;
     alternative_keys := DiscovergyMixin_alternative_keys;
     scale := DiscovergyMixin_scale |};
  {| key := "phase3Voltage";
     translation_key := "phase_3_voltage";
     native_unit_of_measurement := VOLT;
     suggested_display_precision := 1;
     device_class := VOLTAGE;
     state_class := MEASUREMENT;
     entity_registry_enabled_default := Some false;
     alternative_keys := DiscovergyMixin_alternative_keys;
     scale := DiscovergyMixin_scale |};
  (* energy sensors *)
  {| key := "energy";
     translation_key := "total_consumption";
     native_unit_of_measurement := KILO_WATT_HOUR;
     suggested_display_precision := 4;
     device_class := ENERGY;
     state_class := TOTAL_INCREASING;
     entity_registry_enabled_default := None;
     alternative_keys := DiscovergyMixin_alternative_keys;
     scale := 10000000000 |};
  {| key := "energyOut";
     translation_key := "total_production";
     native_unit_of_measurement := KILO_WATT_HOUR;
     suggested_display_precision := 4;
     device_class := ENERGY;
     state_class := TOTAL_INCREASING;
     entity_registry_enabled_default := None;
     alternative_keys := DiscovergyMixin_alternative_keys;
     scale := 10000000000 |}
].

(** ** State and exceptions

    A computation runs on a state [S] and ends with a value, a raised
    exception or [Stuck]; the state it leaves is kept in all three cases,
    as Python keeps the effects made before a [raise]. *)

Definition M (S A : Type) : Type := S -> outcome A * S.

Definition ret {S A} (a : A) : M S A := fun w => (Ok a, w).

Definition bind {S A B} (c : M S A) (k : A -> M S B) : M S B :=
  fun w =>
    match c w with
    | (Ok a, w') => k a w'
    | (Raise e, w') => (Raise e, w')
    | (Stuck, w') => (Stuck, w')
    end.

Definition raise {S A} (e : exn) : M S A := fun w => (Raise e, w).
Definition gets {S A} (f : S -> A) : M S A := fun w => (Ok (f w), w).
Definition modify {S} (f : S -> S) : M S unit := fun w => (Ok tt, f w).
Definition lift {S A} (o : outcome A) : M S A := fun w => (o, w).

(** [try: c except Exception as err: h err]. *)
Definition try_except {S A} (c : M S A) (h : exn -> M S A) : M S A :=
  fun w =>
    match c w with
    | (Raise e, w') => h e w'
    | r => r
    end.

Notation "'let!' x ':=' c 'in' k" := (bind c (fun x => k))
  (at level 10, x pattern, c at level 100, k at level 200).
Notation "c '>>' k" := (bind c (fun _ => k))
  (at level 65, right associativity).

(** [for x in l: a = f a x], threading the loop-carried value [a]. *)
Fixpoint for_each {S A B} (f : A -> B -> M S A) (a : A) (l : list B)
  : M S A :=
  match l with
  | [] => ret a
  | x :: l' => let! a' := f a x in for_each f a' l'
  end.

(** ** The program *)

Section Model.
Context {Api : Type} `{!Discovergy Api} `{!Const}.

(** The state the module runs in.  [gas_sensors] and
    [electricity_sensors] are the description objects behind the
    module-level tuples; [heap] holds the coordinator objects by address;
    [data_meters] and [data_coordinators] are the fields of the entry's
    [DiscovergyData] ([hass.data[DOMAIN][entry.entry_id]]), whose
    [api_client] talks to [cloud]; [added] collects the calls of
    [async_add_entities]. *)
Record World := {
  cloud : Api;
  gas_sensors : list DiscovergySensorEntityDescription;
  electricity_sensors : list DiscovergySensorEntityDescription;
  heap : list DataUpdateCoordinator;
  data_meters : list Meter;
  data_coordinators : gmap string loc;
  added : list (list DiscovergySensor * bool);
  trace : list Event;
}.

Definition with_cloud (a : Api) (w : World) : World :=
  {| cloud := a; gas_sensors := gas_sensors w;
     electricity_sensors := electricity_sensors w; heap := heap w;
     data_meters := data_meters w;
     data_coordinators := data_coordinators w; added := added w;
     trace := trace w |}.

Definition with_heap (h : list DataUpdateCoordinator) (w : World) : World :=
  {| cloud := cloud w; gas_sensors := gas_sensors w;
     electricity_sensors := electricity_sensors w; heap := h;
     data_meters := data_meters w;
     data_coordinators := data_coordinators w; added := added w;
     trace := trace w |}.

Definition with_data_coordinators (d : gmap string loc) (w : World) : World :=
  {| cloud := cloud w; gas_sensors := gas_sensors w;
     electricity_sensors := electricity_sensors w; heap := heap w;
     data_meters := data_meters w;
     data_coordinators := d; added := added w;
     trace := trace w |}.

Definition with_added (a : list (list DiscovergySensor * bool)) (w : World)
  : World :=
  {| cloud := cloud w; gas_sensors := gas_sensors w;
     electricity_sensors := electricity_sensors w; heap := heap w;
     data_meters := data_meters w;
     data_coordinators := data_coordinators w; added := a;
     trace := trace w |}.

Definition with_trace (t : list Event) (w : World) : World :=
  {| cloud := cloud w; gas_sensors := gas_sensors w;
     electricity_sensors := electricity_sensors w; heap := heap w;
     data_meters := data_meters w;
     data_coordinators := data_coordinators w; added := added w;
     trace := t |}.

(** The world once the module is loaded for an entry with the given
    meters: the tables are built, nothing else exists yet. *)
Definition module_load (a : Api) (meters : list Meter) : World :=
  {| cloud := a; gas_sensors := GAS_SENSORS;
     electricity_sensors := ELECTRICITY_SENSORS; heap := [];
     data_meters := meters; data_coordinators := ∅; added := [];
     trace := [] |}.

Definition log (ev : Event) : M World unit :=
  modify (fun w => with_trace (trace w ++ [ev]) w).

(** Following a reference. *)
Definition deref (l : loc) : M World DataUpdateCoordinator :=
  fun w => match heap w !! l with
           | Some c => (Ok c, w)
           | None => (Stuck, w)
           end.

Definition table (t : SensorTable) (w : World)
  : list DiscovergySensorEntityDescription :=
  match t with
  | GasTable => gas_sensors w
  | ElectricityTable => electricity_sensors w
  end.

Definition deref_description (r : desc_ref)
  : M World DiscovergySensorEntityDescription :=
  fun w => match table r.1 w !! r.2 with
           | Some d => (Ok d, w)
           | None => (Stuck, w)
           end.

(** Mutating the object at [l] (the program only writes through
  references it has just obtained, so the object is there). *)
Definition update (l : loc) (f : DataUpdateCoordinator -> DataUpdateCoordinator)
  : M World unit :=
  modify (fun w => with_heap (alter f l (heap w)) w).

(** *** Host primitives *)

(** Modelled from the spec: the constructor of the host's
    [DataUpdateCoordinator]; it allocates a coordinator that holds no
    reading yet. *)
Definition DataUpdateCoordinator_new (nm : string) (update_method : Meter)
    (interval : Z) : M World loc :=
  let! l := gets (fun w => length (heap w)) in
  modify (fun w =>
    with_heap (heap w ++ [ {| name := nm;
                              update_meter := update_method;
                              update_interval := interval;
                              config_entry := None;
                              data := None;
                              last_update_success := true |} ]) w) >>
  log (CoordinatorCreated l update_method) >>
  ret l.

(** [await discovergy_instance.get_last_reading(id)]. *)
Definition call_get_last_reading (id : string) : M World Reading :=
  log (ApiCalled id) >>
  fun w =>
    match get_last_reading (cloud w) id with
    | (Fetched r, a) => (Ok r, with_cloud a w)
    | (Failed e, a) => (Raise e, with_cloud a w)
    end.

(** *** [get_coordinator_for_meter] *)

(** The closure [async_update_data] of [get_coordinator_for_meter], for
    the meter it captured. *)
Definition async_update_data (meter : Meter) : M World Reading :=
  try_except
    (call_get_last_reading (get_meter_id meter))
    (fun err =>
       match exn_cls err with
       | AccessTokenExpired =>
           raise (Exn ConfigEntryAuthFailed
                    "Got token expired while communicating with API"
                    (Some err))
       | HTTPError =>
           raise (Exn UpdateFailed
                    ("Error communicating with API: " +:+ exn_str err)
                    (Some err))
       | _ =>
           raise (Exn UpdateFailed
                    ("Unexpected error while communicating with API: "
                       +:+ exn_str err)
                    (Some err))
       end).

Definition get_coordinator_for_meter (meter : Meter) (update_interval : Z)
  : M World loc :=
  DataUpdateCoordinator_new "sensor" meter update_interval.

(** Modelled from the spec: the host's
    [async_config_entry_first_refresh].  It runs the update method once;
    a fetched reading becomes the coordinator's [data]; a failure leaves
    the routine through the exception the update method raised ("delegate
    authentication failures and transport failures to the host platform's
    standard recovery paths"). *)
Definition async_config_entry_first_refresh (l : loc) : M World unit :=
  let! c := deref l in
  let! r := try_except (async_update_data (update_meter c))
              (fun e =>
                 update l (set_last_update_success false) >> raise e) in
  update l (fun c => set_last_update_success true (set_data r c)) >>
  log (FirstRefreshed l).

(** Modelled from the spec: a later poll by the host.  A fetched reading
    replaces [data]; on a failure the coordinator keeps "the most
    recently fetched Reading" and the host takes over. *)
Definition async_refresh (l : loc) : M World unit :=
  let! c := deref l in
  try_except
    (let! r := async_update_data (update_meter c) in
     update l (fun c => set_last_update_success true (set_data r c)) >>
     log (Refreshed l true))
    (fun _ =>
       update l (set_last_update_success false) >>
       log (Refreshed l false)).

(** *** [DiscovergySensor] *)

(** The attributes [DiscovergySensor.__init__] sets; [ref] is the
    reference to the object [description].  The device name is that of
    the source when the measurement type is ASCII text (see
    [capitalize]), as the types ["ELECTRICITY"] and ["GAS"] that lead to
    entities are. *)
Definition DiscovergySensor_attrs (data_key : string) (ref : desc_ref)
    (description : DiscovergySensorEntityDescription) (meter : Meter)
    (coordinator : loc) : DiscovergySensor :=
    {| coordinator := coordinator;
       data_key := data_key;
       entity_description := ref;
       unique_id := full_serial_number meter +:+ "-" +:+ key description;
       device_info :=
         {| identifiers := [(DOMAIN, get_meter_id meter)];
            device_name :=
              capitalize (measurement_type meter) +:+ " "
                +:+ street (location meter) +:+ " "
                +:+ street_number (location meter);
            model := meter_type meter +:+ " " +:+ full_serial_number meter;
            manufacturer := MANUFACTURER |} |}.

(** [DiscovergySensor(data_key, description, meter, coordinator)]. *)
Definition DiscovergySensor_init (data_key : string) (ref : desc_ref)
    (description : DiscovergySensorEntityDescription) (meter : Meter)
    (coordinator : loc) : M World DiscovergySensor :=
  let self :=
    DiscovergySensor_attrs data_key ref description meter coordinator in
  log (EntityBuilt self) >>
  ret self.

(** [k in values] on a dict. *)
Definition key_in (k : string) (vals : gmap string PyNum) : bool :=
  bool_decide (is_Some (vals !! k)).

(** [coordinator.data.values] *)
Definition coordinator_data_values (l : loc) : M World (gmap string PyNum) :=
  let! c := deref l in
  match data c with
  | Some r => ret (values r)
  | None =>
      raise (Exn AttributeError
               "'NoneType' object has no attribute 'values'" None)
  end.

(** The property [DiscovergySensor.native_value]. *)
Definition native_value (self : DiscovergySensor) : M World spec_float :=
  let! vals := coordinator_data_values (coordinator self) in
  let! raw :=
    match vals !! data_key self with
    | Some v => ret v
    | None => raise (Exn KeyError ("'" +:+ data_key self +:+ "'") None)
    end in
  let! description := deref_description (entity_description self) in
  let! q := lift (py_truediv raw (scale description)) in
  lift (py_float q).

(** *** [async_setup_entry] *)

(** [enumerate]: the objects of a tuple with their positions. *)
Definition enumerate {A} (l : list A) : list (nat * A) :=
  imap pair l.

(** The body of [for key in keys]. *)
Definition add_sensor_for_key (meter : Meter) (coordinator : loc)
    (ref : desc_ref) (description : DiscovergySensorEntityDescription)
    (entities : list DiscovergySensor) (k : string)
  : M World (list DiscovergySensor) :=
  let! vals := coordinator_data_values coordinator in
  if key_in k vals then
    let! e := DiscovergySensor_init k ref description meter coordinator in
    ret (entities ++ [e])
  else ret entities.

(** The body of [for description in sensors]. *)
Definition add_sensors_for_description (meter : Meter) (coordinator : loc)
    (t : SensorTable) (entities : list DiscovergySensor)
    (d : nat * DiscovergySensorEntityDescription)
  : M World (list DiscovergySensor) :=
  let keys := [key d.2] ++ alternative_keys d.2 in
  for_each (add_sensor_for_key meter coordinator (t, d.1) d.2) entities keys.

(** [sensors = None; if meter.measurement_type == "ELECTRICITY": ...
    elif meter.measurement_type == "GAS": ...]. *)
Definition select_sensors (meter : Meter) : option SensorTable :=
  if bool_decide (measurement_type meter = "ELECTRICITY")
  then Some ElectricityTable
  else if bool_decide (measurement_type meter = "GAS")
  then Some GasTable
  else None.

(** The body of [for meter in meters]. *)
Definition setup_meter (entry : ConfigEntry) (min_time_between_updates : Z)
    (entities : list DiscovergySensor) (meter : Meter)
  : M World (list DiscovergySensor) :=
  let! coordinator :=
    get_coordinator_for_meter meter min_time_between_updates in
  update coordinator (set_config_entry entry) >>
  async_config_entry_first_refresh coordinator >>
  modify (fun w =>
    with_data_coordinators
      (<[get_meter_id meter := coordinator]> (data_coordinators w)) w) >>
  log (CoordinatorStored (get_meter_id meter) coordinator) >>
  match select_sensors meter with
  | Some t =>
      let! descriptions := gets (table t) in
      for_each (add_sensors_for_description meter coordinator t)
        entities (enumerate descriptions)
  | None => ret entities
  end.

(** Modelled from the spec: the host's callback [async_add_entities]
  takes the entities over ("entity lifecycle management [is] delegated
  to the host platform"). *)
Definition async_add_entities (entities : list DiscovergySensor)
    (update_before_add : bool) : M World unit :=
  modify (fun w => with_added (added w ++ [(entities, update_before_add)]) w)
  >> log (EntitiesAdded entities update_before_add).

(** [timedelta(seconds=entry.options.get(CONF_TIME_BETWEEN_UPDATE,
    DEFAULT_TIME_BETWEEN_UPDATE))], in seconds. *)
Definition min_time_between_updates (entry : ConfigEntry) : Z :=
  default DEFAULT_TIME_BETWEEN_UPDATE
    (options entry !! CONF_TIME_BETWEEN_UPDATE).

Definition async_setup_entry (entry : ConfigEntry) : M World unit :=
  let! meters := gets data_meters in
  let! entities :=
    for_each (setup_meter entry (min_time_between_updates entry))
      [] meters in
  async_add_entities entities false.

(** *** Runs of the system *)

(** One step of the running system: the host sets up an entry, polls a
    coordinator, or reads the state of an entity. *)
Inductive step : World -> World -> Prop :=
  | step_setup entry w : step w (async_setup_entry entry w).2
  | step_refresh l w : step w (async_refresh l w).2
  | step_native_value e w : step w (native_value e w).2.

(** The worlds that runs reach from a freshly loaded module. *)
Definition reachable (w : World) : Prop :=
  exists a meters, rtc step (module_load a meters) w.

(** *** What the loops amount to *)

(** The state of the description objects. *)
Definition tables (w : World)
  : list DiscovergySensorEntityDescription
    * list DiscovergySensorEntityDescription :=
  (gas_sensors w, electricity_sensors w).

(** The exception [async_update_data] raises for a failure [err] of the
    vendor call. *)
Definition host_error (err : exn) : exn :=
  match exn_cls err with
  | AccessTokenExpired =>
      Exn ConfigEntryAuthFailed
        "Got token expired while communicating with API" (Some err)
  | HTTPError =>
      Exn UpdateFailed ("Error communicating with API: " +:+ exn_str err)
        (Some err)
  | _ =>
      Exn UpdateFailed
        ("Unexpected error while communicating with API: " +:+ exn_str err)
        (Some err)
  end.

(** The coordinator of a meter whose first refresh has failed. *)
Definition failed_coordinator (entry : ConfigEntry) (interval : Z)
    (meter : Meter) : DataUpdateCoordinator :=
  {| name := "sensor"; update_meter := meter; update_interval := interval;
     config_entry := Some entry; data := None;
     last_update_success := false |}.

(** The answers of the cloud to the first fetch of each meter in turn;
    [None] as soon as one of them fails. *)
Fixpoint first_fetches (a : Api) (meters : list Meter)
  : option (list Reading * Api) :=
  match meters with
  | [] => Some ([], a)
  | m :: meters' =>
      match get_last_reading a (get_meter_id m) with
      | (Fetched r, a') =>
          match first_fetches a' meters' with
          | Some (rs, a'') => Some (r :: rs, a'')
          | None => None
          end
      | (Failed _, _) => None
      end
  end.

(** The sensors the two inner loops build from one description and from
    one table. *)
Definition sensors_for_description (meter : Meter) (coordinator : loc)
    (t : SensorTable) (vals : gmap string PyNum)
    (d : nat * DiscovergySensorEntityDescription) : list DiscovergySensor :=
  map (fun k => DiscovergySensor_attrs k (t, d.1) d.2 meter coordinator)
    (List.filter (fun k => key_in k vals)
       ([key d.2] ++ alternative_keys d.2)).

Definition sensors_for_meter (w : World) (meter : Meter) (coordinator : loc)
    (vals : gmap string PyNum) : list DiscovergySensor :=
  match select_sensors meter with
  | Some t =>
      flat_map (sensors_for_description meter coordinator t vals)
        (enumerate (table t w))
  | None => []
  end.

(** The coordinator of a meter once its first refresh has succeeded. *)
Definition refreshed_coordinator (entry : ConfigEntry) (interval : Z)
    (meter : Meter) (r : Reading) : DataUpdateCoordinator :=
  {| name := "sensor"; update_meter := meter; update_interval := interval;
     config_entry := Some entry; data := Some r;
     last_update_success := true |}.

(** What one round of the meter loop adds to the trace. *)
Definition meter_events (w : World) (l : loc) (meter : Meter) (r : Reading)
  : list Event :=
  [CoordinatorCreated l meter; ApiCalled (get_meter_id meter);
   FirstRefreshed l; CoordinatorStored (get_meter_id meter) l]
  ++ map EntityBuilt (sensors_for_meter w meter l (values r)).

(** The meter loop as a whole, for coordinators allocated from address
    [l] on: the entities, the coordinators, the dict and the events. *)
Fixpoint setup_entities (w : World) (l : loc) (meters : list Meter)
    (rs : list Reading) : list DiscovergySensor :=
  match meters, rs with
  | m :: meters', r :: rs' =>
      sensors_for_meter w m l (values r)
        ++ setup_entities w (S l) meters' rs'
  | _, _ => []
  end.

Fixpoint setup_stored (l : loc) (meters : list Meter)
    (d : gmap string loc) : gmap string loc :=
  match meters with
  | m :: meters' => setup_stored (S l) meters' (<[get_meter_id m := l]> d)
  | [] => d
  end.

Fixpoint setup_events (w : World) (l : loc) (meters : list Meter)
    (rs : list Reading) : list Event :=
  match meters, rs with
  | m :: meters', r :: rs' =>
      meter_events w l m r ++ setup_events w (S l) meters' rs'
  | _, _ => []
  end.

End Model.

Arguments World Api : clear implicits.

(** ** A sample installation

    One electricity meter whose reading reports phase 1 under both of its
    names, one gas meter, and one meter of a kind the module has no table
    for.  The cloud counts the calls it has answered; from the fourth call
    on the token has expired. *)

Definition sample_const : Const :=
  {| DOMAIN := "discovergy"; MANUFACTURER := "Discovergy";
     CONF_TIME_BETWEEN_UPDATE := "time_between_update";
     DEFAULT_TIME_BETWEEN_UPDATE := 30 |}.

Definition sample_electricity_meter : Meter :=
  {| meter_id := "f8d610b7a8cc4e73939fa33b990ded54";
     full_serial_number := "1ESY1161229886"; meter_type := "EASYMETER";
     measurement_type := "ELECTRICITY";
     location := {| street := "Musterstrasse"; street_number := "1" |} |}.

Definition sample_gas_meter : Meter :=
  {| meter_id := "2a7cf2bd5b1a4e1db2d4b5b0f4c1a9e7";
     full_serial_number := "7ELS8135823805"; meter_type := "ELSTER";
     measurement_type := "GAS";
     location := {| street := "Musterstrasse"; street_number := "1" |} |}.

Definition sample_water_meter : Meter :=
  {| meter_id := "0c3e5d1f9b7a4c2e8d6f4b2a1c3e5d7f";
     full_serial_number := "8WAT0000000042"; meter_type := "AQUA";
     measurement_type := "WATER";
     location := {| street := "Musterstrasse"; street_number := "1" |} |}.

Definition sample_electricity_reading : Reading :=
  {| time := 1700000000;
     values := <["energy" := PyInt 119348699715000]>
               (<["power" := PyInt 531750]>
               (<["power1" := PyInt 142680]>
               (<["phase1Power" := PyInt 142680]>
               (<["phase1Voltage" := PyInt 239800]> ∅)))) |}.

Definition sample_gas_reading : Reading :=
  {| time := 1700000000; values := <["volume" := PyInt 21064800]> ∅ |}.

Definition sample_water_reading : Reading :=
  {| time := 1700000000; values := <["volume" := PyInt 1234]> ∅ |}.

Definition sample_api : Discovergy nat :=
  fun calls id =>
    (if (3 <=? calls)%nat then
       Failed (Exn AccessTokenExpired "token expired" None)
     else if bool_decide (id = meter_id sample_electricity_meter) then
       Fetched sample_electricity_reading
     else if bool_decide (id = meter_id sample_gas_meter) then
       Fetched sample_gas_reading
     else if bool_decide (id = meter_id sample_water_meter) then
       Fetched sample_water_reading
     else Failed (Exn HTTPError "404 Not Found" None),
     S calls).

Definition sample_entry : ConfigEntry :=
  {| entry_id := "1a2b3c"; options := ∅ |}.

Definition sample_world : World nat :=
  @module_load nat 0%nat
    [sample_electricity_meter; sample_gas_meter; sample_water_meter].

Definition sample_readings : list Reading :=
  [sample_electricity_reading; sample_gas_reading; sample_water_reading].

Definition sample_after_setup : World nat :=
  (@async_setup_entry nat sample_api sample_const sample_entry sample_world).2.

(** The sensor the setup builds for the total power of the electricity
    meter. *)
Definition sample_power_sensor : DiscovergySensor :=
  @DiscovergySensor_attrs sample_const "power" (ElectricityTable, 0%nat)
    {| key := "power";
       translation_key := "total_power";
       native_unit_of_measurement := WATT;
       suggested_display_precision := 3;
       device_class := POWER;
       state_class := MEASUREMENT;
       entity_registry_enabled_default := None;
       alternative_keys := DiscovergyMixin_alternative_keys;
       scale := DiscovergyMixin_scale |}
    sample_electricity_meter 0%nat.

(** * Properties *)

(** ** Notions *)

(** [preserves proj c]: running [c] leaves the part [proj] of the state as
    it was, however [c] ends. *)
Definition preserves {S A B} (proj : S -> B) (c : M S A) : Prop :=
  forall w, proj (c w).2 = proj w.

(** The addresses and meters of the coordinators an event creates. *)
Definition created (ev : Event) : option (loc * Meter) :=
  match ev with CoordinatorCreated l m => Some (l, m) | _ => None end.

(** Every entity is built after the first refresh of its coordinator. *)
Definition refreshed_before_built (evs : list Event) : Prop :=
  forall p e, evs !! p = Some (EntityBuilt e) ->
    exists q, q < p /\ evs !! q = Some (FirstRefreshed (coordinator e)).

Section Notions.
Context {Api : Type}.

(** A part of the world that only [async_add_entities] may write. *)
Definition static {B} (proj : World Api -> B) : Prop :=
  (forall w t, proj (with_trace t w) = proj w)
  /\ (forall w h, proj (with_heap h w) = proj w)
  /\ (forall w a, proj (with_cloud a w) = proj w)
  /\ (forall w d, proj (with_data_coordinators d w) = proj w).

(** The references of an entity lead to objects: a coordinator that
    holds a reading, and a description. *)
Definition entity_ok (w : World Api) (e : DiscovergySensor) : Prop :=
  (exists c r, heap w !! coordinator e = Some c /\ data c = Some r)
  /\ (exists d,
        table (entity_description e).1 w !! (entity_description e).2
          = Some d).

(** The entities handed to the host so far. *)
Definition entities (w : World Api) : list DiscovergySensor :=
  concat (map fst (added w)).
End Notions.

(** The meter ids an event asks the cloud for. *)
Definition api_called (ev : Event) : option string :=
  match ev with ApiCalled id => Some id | _ => None end.

(** The keys a description can be matched on: [[description.key] +
    description.alternative_keys]. *)
Definition keys_of (d : DiscovergySensorEntityDescription) : list string :=
  [key d] ++ alternative_keys d.

(** A float that is a number: neither infinite nor NaN. *)
Definition is_number (x : spec_float) : bool :=
  match x with
  | S754_zero _ | S754_finite _ _ _ => true
  | S754_infinity _ | S754_nan => false
  end.

(** The sign bit of a float ([None] for NaN). *)
Definition sign_bit (x : spec_float) : option bool :=
  match x with
  | S754_zero s | S754_finite s _ _ | S754_infinity s => Some s
  | S754_nan => None
  end.

(** *** Rounding to binary64 *)

(** The fraction [a / b] seen at the binary exponent [ex], that is
    [a / b * 2^-ex], as a numerator and a denominator. *)
Definition scaled_num (a ex : Z) : Z := (a * 2 ^ Z.max (- ex) 0)%Z.
Definition scaled_den (b ex : Z) : Z := (b * 2 ^ Z.max ex 0)%Z.

(** [mx] is an integer nearest to [N / D] (at most half a unit away), the
    even one of the two when [N / D] is half way between them. *)
Definition nearest_even (N D mx : Z) : Prop :=
  (2 * Z.abs (mx * D - N) <= D
   /\ (2 * Z.abs (mx * D - N) = D -> Z.even mx = true))%Z.

(** [z] is the real number [N / D] (for [0 <= N] and [0 < D]), with the
    sign [s], rounded to binary64: to the nearest number, and to the one
    with the even mantissa on a tie.

    - A finite [z] is [mx * 2^ex] with [mx] below 2^53 and [ex] from
      -1074 to 971; [mx] is nearest to [N / D * 2^-ex]; and above the
      least exponent the number is normal, with [N / D * 2^-ex] from
      2^52 - 1/4 on (below that, the numbers of the next lower exponent
      are nearer).
    - Zero stands for the mantissa 0 at the least exponent.
    - An infinity is what [N / D] rounds to from 2^1024 - 2^970 on, half
      way between the largest number and 2^1024.
    - NaN is the rounding of no number.

    At most one [z] is the rounding of [N / D] with the sign [s]
    ([binary64_round_unique] below). *)
Definition binary64_round (s : bool) (N D : Z) (z : spec_float) : Prop :=
  match z with
  | S754_zero s' =>
      s' = s
      /\ nearest_even (scaled_num N (-1074)) (scaled_den D (-1074)) 0
  | S754_finite s' mx ex =>
      s' = s
      /\ (-1074 <= ex <= 971)%Z
      /\ (Zpos mx < 2 ^ 53)%Z
      /\ (ex = (-1074)%Z
          \/ ((2 ^ 54 - 1) * scaled_den D ex <= 4 * scaled_num N ex)%Z)
      /\ nearest_even (scaled_num N ex) (scaled_den D ex) (Zpos mx)
  | S754_infinity s' =>
      s' = s /\ ((2 ^ 54 - 1) * 2 ^ 970 * D <= N)%Z
  | S754_nan => False
  end.

(** [z] is the float [x] divided by the finite float [my * 2^ey] of sign
    [sy], as IEEE 754 has it: NaN for NaN, an infinity or a zero with the
    product of the signs for an infinity or a zero, and for a finite
    [mx * 2^ex] the rounding of the exact quotient
    [(mx * 2^ex) / (my * 2^ey)]. *)
Definition float_quotient (x : spec_float) (sy : bool) (my : positive)
    (ey : Z) (z : spec_float) : Prop :=
  match x with
  | S754_nan => z = S754_nan
  | S754_infinity sx => z = S754_infinity (xorb sx sy)
  | S754_zero sx => z = S754_zero (xorb sx sy)
  | S754_finite sx mx ex =>
      binary64_round (xorb sx sy)
        (Zpos mx * 2 ^ Z.max (ex - ey) 0) (Zpos my * 2 ^ Z.max (ey - ex) 0) z
  end.

(** The mantissa and the two bits of a shift record locate [N / D]: it
    is in [[m, m + 1)], and the round bit and the sticky bit say whether
    it is [m], below the middle, the middle, or above it. *)
Definition located (N D : Z) (mrs : shr_record) : Prop :=
  (0 <= shr_m mrs
   /\ match shr_r mrs, shr_s mrs with
      | false, false => N = shr_m mrs * D
      | false, true =>
          shr_m mrs * D < N /\ 2 * N < (2 * shr_m mrs + 1) * D
      | true, false => 2 * N = (2 * shr_m mrs + 1) * D
      | true, true =>
          (2 * shr_m mrs + 1) * D < 2 * N /\ N < (shr_m mrs + 1) * D
      end)%Z.

Section MoreNotions.
Context {Api : Type}.

(** Every entry of [data.coordinators] leads to a coordinator that holds
    a reading. *)
Definition stored_ok (w : World Api) : Prop :=
  forall id l, data_coordinators w !! id = Some l ->
    exists c r, heap w !! l = Some c /\ data c = Some r.
End MoreNotions.

(** The descriptions of the total power and of the power of phase 1, and
    the coordinator that the sample setup creates for the electricity
    meter. *)
Definition sample_power_description : DiscovergySensorEntityDescription :=
  {| key := "power";
     translation_key := "total_power";
     native_unit_of_measurement := WATT;
     suggested_display_precision := 3;
     device_class := POWER;
     state_class := MEASUREMENT;
     entity_registry_enabled_default := None;
     alternative_keys := DiscovergyMixin_alternative_keys;
     scale := DiscovergyMixin_scale |}.

Definition sample_power1_description : DiscovergySensorEntityDescription :=
  {| key := "power1";
     translation_key := "phase_1_power";
     native_unit_of_measurement := WATT;
     suggested_display_precision := 3;
     device_class := POWER;
     state_class := MEASUREMENT;
     entity_registry_enabled_default := Some false;
     alternative_keys := ["phase1Power"];
     scale := DiscovergyMixin_scale |}.

Definition sample_electricity_coordinator : DataUpdateCoordinator :=
  {| name := "sensor"; update_meter := sample_electricity_meter;
     update_interval := 30; config_entry := Some sample_entry;
     data := Some sample_electricity_reading;
     last_update_success := true |}.

(** * The arithmetic of true division

    [SFdiv] divides the mantissas, keeps where the remainder lies (exact,
    below the middle, the middle, above it) and rounds; the lemmas below
    follow the quotient through these steps and show that what comes out
    is the rounding of the exact quotient. *)

Section Division.
Local Open Scope Z_scope.

Lemma located_floor N D mrs :
  0 < D -> located N D mrs -> shr_m mrs * D <= N < (shr_m mrs + 1) * D.
Proof.
  intros HD [Hm H]. destruct (shr_r mrs), (shr_s mrs); nia.
Qed.

Lemma shr_1_located N D mrs :
  0 < D -> located N D mrs -> located N (2 * D) (shr_1 mrs).
Proof.
  intros HD Hloc. pose proof (located_floor N D mrs HD Hloc) as Hfl.
  destruct Hloc as [Hm H].
  destruct mrs as [mx rx sx]. simpl in *.
  destruct mx as [|[p|p|]|p]; try lia;
    destruct rx, sx; simpl in *; split; simpl; lia.
Qed.

Lemma located_cancel N D c mrs :
  0 < c -> located (N * c) (D * c) mrs -> located N D mrs.
Proof.
  intros Hc [Hm H]. split; [done|].
  destruct (shr_r mrs), (shr_s mrs); nia.
Qed.

Lemma scaled_den_pos b ex : 0 < b -> 0 < scaled_den b ex.
Proof.
  intros Hb. apply Z.mul_pos_pos; [done|]. apply Z.pow_pos_nonneg; lia.
Qed.

Lemma scaled_num_pos a ex : 0 < a -> 0 < scaled_num a ex.
Proof.
  intros Ha. apply Z.mul_pos_pos; [done|]. apply Z.pow_pos_nonneg; lia.
Qed.

(** From one exponent to the next: the numerator is halved, or the
    denominator doubled. *)
Lemma scaled_step a b ex :
  (scaled_num a ex = 2 * scaled_num a (ex + 1)
   /\ scaled_den b (ex + 1) = scaled_den b ex)
  \/ (scaled_num a (ex + 1) = scaled_num a ex
      /\ scaled_den b (ex + 1) = 2 * scaled_den b ex).
Proof.
  unfold scaled_num, scaled_den.
  destruct (Z_lt_dec ex 0) as [Hneg|Hpos]; [left|right].
  - replace (Z.max (- ex) 0) with (Z.max (- (ex + 1)) 0 + 1) by lia.
    replace (Z.max (ex + 1) 0) with (Z.max ex 0) by lia.
    rewrite Z.pow_add_r by lia. change (2 ^ 1) with 2. split; [ring|done].
  - replace (Z.max (- (ex + 1)) 0) with (Z.max (- ex) 0) by lia.
    replace (Z.max (ex + 1) 0) with (Z.max ex 0 + 1) by lia.
    rewrite Z.pow_add_r by lia. change (2 ^ 1) with 2. split; [done|ring].
Qed.

(** One step to the right, on the exponent. *)
Lemma shr_1_scaled a b ex mrs :
  0 < a -> 0 < b ->
  located (scaled_num a ex) (scaled_den b ex) mrs ->
  located (scaled_num a (ex + 1)) (scaled_den b (ex + 1)) (shr_1 mrs).
Proof.
  intros Ha Hb Hloc.
  pose proof (scaled_den_pos b ex Hb) as HD.
  apply (shr_1_located _ _ _ HD) in Hloc.
  destruct (scaled_step a b ex) as [[HN HD']|[HN HD']];
    rewrite HD'; [|by rewrite HN].
  apply (located_cancel _ _ 2); [lia|].
  rewrite HN in Hloc.
  by rewrite (Z.mul_comm _ 2), (Z.mul_comm _ 2).
Qed.

Lemma iter_shr_1_scaled a b p : forall ex mrs,
  0 < a -> 0 < b ->
  located (scaled_num a ex) (scaled_den b ex) mrs ->
  located (scaled_num a (ex + Zpos p)) (scaled_den b (ex + Zpos p))
    (SpecFloat.iter_pos shr_1 p mrs).
Proof.
  induction p as [p IH|p IH|]; intros ex mrs Ha Hb Hloc; simpl.
  - replace (ex + Z.pos p~1) with (ex + 1 + Z.pos p + Z.pos p) by lia.
    apply IH, IH; try done. by apply shr_1_scaled.
  - replace (ex + Z.pos p~0) with (ex + Z.pos p + Z.pos p) by lia.
    by apply IH, IH.
  - by apply shr_1_scaled.
Qed.

Lemma new_location_located pb q rem :
  0 <= q -> 0 <= rem < Zpos pb ->
  located (q * Zpos pb + rem) (Zpos pb)
    (shr_record_of_loc q (new_location (Zpos pb) rem)).
Proof.
  intros Hq Hrem. unfold new_location, new_location_even, new_location_odd.
  destruct (Z.even (Z.pos pb)) eqn:Heven.
  - destruct (Z.eqb_spec rem 0) as [->|Hne]; [split; simpl; lia|].
    destruct (Z.compare_spec (2 * rem) (Z.pos pb)); split; simpl; lia.
  - destruct (Z.eqb_spec rem 0) as [->|Hne]; [split; simpl; lia|].
    assert (2 * rem <> Z.pos pb) as Hodd.
    { intros Heq. rewrite <- Heq, Z.even_mul in Heven. done. }
    destruct (Z.compare_spec (2 * rem + 1) (Z.pos pb)); split; simpl; lia.
Qed.

Lemma round_nearest_even_located N D mrs :
  0 < D -> located N D mrs ->
  let m1 := round_nearest_even (shr_m mrs) (loc_of_shr_record mrs) in
  nearest_even N D m1
  /\ shr_m mrs * D <= N
  /\ (m1 = shr_m mrs
      \/ (m1 = shr_m mrs + 1 /\ (2 * shr_m mrs + 1) * D <= 2 * N)).
Proof.
  intros HD [Hm H]. destruct mrs as [mx [|] [|]]; simpl in *;
    unfold nearest_even.
  - split_and!; [nia|nia|nia|right; nia].
  - destruct (Z.even mx) eqn:Hev.
    + split_and!; [nia|done|nia|by left].
    + split_and!; [nia| |nia|right; nia].
      intros _. rewrite Z.even_add, Hev. done.
  - split_and!; [nia|nia|nia|by left].
  - split_and!; [nia|nia|nia|by left].
Qed.

(** ** Digits *)

Lemma shr_1_nonneg mrs : (0 <= shr_m mrs)%Z -> (0 <= shr_m (shr_1 mrs))%Z.
Proof.
  destruct mrs as [m r s]. simpl.
  destruct m as [|[p|p|]|[p|p|]]; simpl; lia.
Qed.

Lemma digits2_pos_size p : digits2_pos p = Pos.size p.
Proof. induction p as [p IH|p IH|]; simpl; by rewrite ?IH. Qed.

Lemma Zdigits2_log2 p : Zdigits2 (Zpos p) = (Z.log2 (Zpos p) + 1)%Z.
Proof.
  simpl. rewrite digits2_pos_size.
  destruct p as [p|p|]; simpl; lia.
Qed.

Lemma Zdigits2_nonneg mx : (0 <= mx -> 0 <= Zdigits2 mx)%Z.
Proof. destruct mx; simpl; lia. Qed.

Lemma Zdigits2_mono ma mb : (0 <= ma <= mb -> Zdigits2 ma <= Zdigits2 mb)%Z.
Proof.
  intros [Ha Hab]. destruct ma as [|pa|pa]; [|destruct mb as [|pb|pb]|]; try lia.
  - by apply Zdigits2_nonneg.
  - rewrite !Zdigits2_log2. pose proof (Z.log2_le_mono (Zpos pa) (Zpos pb) Hab). lia.
Qed.

Lemma Zdigits2_succ mx : (0 <= mx -> Zdigits2 (mx + 1) <= Zdigits2 mx + 1)%Z.
Proof.
  intros Hm. destruct mx as [|p|p]; [done| |lia].
  replace (Z.pos p + 1)%Z with (Z.pos (Pos.succ p)) by lia.
  simpl. clear Hm. induction p as [p IH|p IH|]; simpl; lia.
Qed.

Lemma Zdigits2_shiftl pa sh :
  (0 <= sh -> Zdigits2 (Z.shiftl (Zpos pa) sh) = Zdigits2 (Zpos pa) + sh)%Z.
Proof.
  intros Hs.
  assert (0 < Z.shiftl (Zpos pa) sh)%Z as Hpos.
  { rewrite Z.shiftl_mul_pow2 by done.
    apply Z.mul_pos_pos; [lia|]. by apply Z.pow_pos_nonneg. }
  destruct (Z.shiftl (Z.pos pa) sh) as [|q|q] eqn:Hq; try lia.
  rewrite !Zdigits2_log2, <- Hq, Z.log2_shiftl by lia. lia.
Qed.

Lemma Zdigits2_lt_pow2 pa k :
  (0 < k -> Zpos pa < 2 ^ k -> Zdigits2 (Zpos pa) <= k)%Z.
Proof.
  intros Hk Hlt. rewrite Zdigits2_log2.
  apply Z.log2_lt_pow2 in Hlt; lia.
Qed.

Lemma shr_1_digits mrs :
  (0 <= shr_m mrs ->
   Zdigits2 (shr_m (shr_1 mrs)) = Z.max 0 (Zdigits2 (shr_m mrs) - 1))%Z.
Proof.
  destruct mrs as [mx rx sx]. simpl.
  destruct mx as [|[p|p|]|p]; simpl; lia.
Qed.

Lemma iter_shr_1_digits p : forall mrs,
  (0 <= shr_m mrs)%Z ->
  (0 <= shr_m (SpecFloat.iter_pos shr_1 p mrs)
   /\ Zdigits2 (shr_m (SpecFloat.iter_pos shr_1 p mrs))
      = Z.max 0 (Zdigits2 (shr_m mrs) - Zpos p))%Z.
Proof.
  induction p as [p IH|p IH|]; intros mrs Hm; simpl.
  - pose proof (shr_1_nonneg mrs Hm) as H1.
    pose proof (shr_1_digits mrs Hm) as D1.
    destruct (IH (shr_1 mrs) H1) as [H2 D2].
    destruct (IH _ H2) as [H3 D3].
    split; [done|]. lia.
  - destruct (IH mrs Hm) as [H2 D2].
    destruct (IH _ H2) as [H3 D3].
    split; [done|]. lia.
  - split; [by apply shr_1_nonneg|]. by apply shr_1_digits.
Qed.

Lemma Zdigits2_bounds p :
  2 ^ (Zdigits2 (Zpos p) - 1) <= Zpos p < 2 ^ Zdigits2 (Zpos p).
Proof.
  rewrite Zdigits2_log2.
  replace (Z.log2 (Z.pos p) + 1 - 1) with (Z.log2 (Z.pos p)) by lia.
  apply Z.log2_spec. lia.
Qed.

Lemma Zdigits2_ge mx k :
  0 <= k -> 2 ^ k <= mx -> k + 1 <= Zdigits2 mx.
Proof.
  intros Hk Hle.
  assert (0 < 2 ^ k) by (apply Z.pow_pos_nonneg; lia).
  destruct mx as [|p|p]; try lia.
  rewrite Zdigits2_log2. apply Z.log2_le_pow2 in Hle; lia.
Qed.

Lemma Zdigits2_lt mx k :
  0 <= k -> 0 <= mx < 2 ^ k -> Zdigits2 mx <= k.
Proof.
  intros Hk [H0 Hlt]. destruct mx as [|p|p]; [done| |lia].
  destruct (Z.eq_dec k 0) as [->|Hne]; [simpl in Hlt; lia|].
  apply Zdigits2_lt_pow2; [lia|done].
Qed.

Lemma shr_record_of_loc_m mx lx : shr_m (shr_record_of_loc mx lx) = mx.
Proof. by destruct lx as [|[]]. Qed.


(** Two fractions that are equal are located alike. *)
Lemma located_equiv N D N' D' mrs :
  0 < D -> 0 < D' -> N * D' = N' * D ->
  located N D mrs -> located N' D' mrs.
Proof.
  intros HD HD' Heq [Hm H]. split; [done|].
  destruct (shr_r mrs), (shr_s mrs).
  - destruct H as [H1 H2]. split.
    + apply (Z.mul_lt_mono_pos_r D); [done|].
      replace (2 * N' * D) with (2 * N * D') by lia. nia.
    + apply (Z.mul_lt_mono_pos_r D); [done|].
      rewrite <- Heq. nia.
  - apply (Z.mul_cancel_r _ _ D); [lia|].
    replace (2 * N' * D) with (2 * N * D') by lia. nia.
  - destruct H as [H1 H2]. split.
    + apply (Z.mul_lt_mono_pos_r D); [done|]. rewrite <- Heq. nia.
    + apply (Z.mul_lt_mono_pos_r D); [done|].
      replace (2 * N' * D) with (2 * N * D') by lia. nia.
  - apply (Z.mul_cancel_r _ _ D); [lia|]. rewrite <- Heq. nia.
Qed.

(** The quotient and the location that the division hands to the
    rounding. *)
Lemma SFdiv_core_binary_located mx ex my ey :
  let res := SFdiv_core_binary prec emax (Zpos mx) ex (Zpos my) ey in
  0 <= res.1.1
  /\ (-1074 < res.1.2 -> 53 <= Zdigits2 res.1.1)
  /\ located
       (scaled_num (scaled_num (Zpos mx) (ey - ex)) res.1.2)
       (scaled_den (scaled_den (Zpos my) (ey - ex)) res.1.2)
       (shr_record_of_loc res.1.1 res.2).
Proof.
  unfold SFdiv_core_binary.
  pose proof (Zdigits2_bounds mx) as [Ha1 Ha2].
  pose proof (Zdigits2_bounds my) as [Hb1 Hb2].
  assert (1 <= Zdigits2 (Zpos mx)) as Hda by (simpl; lia).
  assert (1 <= Zdigits2 (Zpos my)) as Hdb by (simpl; lia).
  set (d1 := Zdigits2 (Zpos mx)) in *.
  set (d2 := Zdigits2 (Zpos my)) in *.
  set (e' := Z.min _ _).
  assert (e' = Z.min (Z.max (d1 + ex - (d2 + ey) - 53) (-1074)) (ex - ey))
    as He'.
  { subst e'. unfold fexp, emin, prec, emax. lia. }
  set (sh := (ex - ey - e')%Z).
  assert (0 <= sh) as Hsh by lia.
  set (m' := match sh with Zpos _ => _ | Z0 => _ | Zneg _ => _ end).
  assert (m' = Zpos mx * 2 ^ sh) as Hm'.
  { subst m'. destruct sh as [|p|p] eqn:Hp; [lia| |lia].
    by rewrite Z.shiftl_mul_pow2. }
  assert (0 < 2 ^ sh) as Hpow by (apply Z.pow_pos_nonneg; lia).
  pose proof (Z_div_mod m' (Zpos my) ltac:(lia)) as Hdiv.
  destruct (Z.div_eucl m' (Z.pos my)) as [q rem]. simpl.
  destruct Hdiv as [Heq Hrem].
  assert (0 <= q) as Hq by nia.
  split; [done|]. split.
  - intros Hbig.
    assert (53 <= d1 + sh - d2) as Hk by lia.
    enough (d1 + sh - d2 - 1 + 1 <= Zdigits2 q) by lia.
    apply (Zdigits2_ge q (d1 + sh - d2 - 1)); [lia|].
    assert (2 ^ (d1 + sh - d2 - 1) * 2 ^ d2 = 2 ^ (d1 - 1) * 2 ^ sh) as Hp.
    { rewrite <- !Z.pow_add_r by lia. f_equal. lia. }
    assert (0 < 2 ^ (d1 + sh - d2 - 1)) by (apply Z.pow_pos_nonneg; lia).
    nia.
  - apply (located_equiv (q * Z.pos my + rem) (Z.pos my));
      [lia|by apply scaled_den_pos, scaled_den_pos| |
       by apply new_location_located].
    replace (q * Z.pos my + rem) with m' by lia. rewrite Hm'.
    unfold scaled_num, scaled_den.
    set (k1 := Z.max (- (ey - ex)) 0). set (k2 := Z.max (- e') 0).
    set (k3 := Z.max (ey - ex) 0). set (k4 := Z.max e' 0).
    transitivity (Z.pos mx * Z.pos my * (2 ^ sh * 2 ^ k3 * 2 ^ k4)); [ring|].
    transitivity (Z.pos mx * Z.pos my * (2 ^ k1 * 2 ^ k2)); [|ring].
    f_equal. rewrite <- !Z.pow_add_r by lia. f_equal. lia.
Qed.

(** The first shift of the rounding brings the mantissa to 53 digits, or
    leaves it shorter at the least exponent. *)
Lemma shr_fexp_located a b mx ex lx :
  0 < a -> 0 < b -> 0 <= mx ->
  (-1074 < ex -> 53 <= Zdigits2 mx) ->
  located (scaled_num a ex) (scaled_den b ex) (shr_record_of_loc mx lx) ->
  let res := shr_fexp prec emax mx ex lx in
  located (scaled_num a res.2) (scaled_den b res.2) res.1
  /\ Z.max (Zdigits2 (shr_m res.1) + res.2 - 53) (-1074) = res.2.
Proof.
  intros Ha Hb Hm Hdig Hloc. unfold shr_fexp, shr, fexp, emin, prec, emax.
  pose proof (Zdigits2_nonneg mx Hm) as Hdn.
  pose proof (shr_record_of_loc_m mx lx) as Hrec.
  destruct (Z.max (Zdigits2 mx + ex - 53) (3 - 1024 - 53) - ex)
    as [|p|p] eqn:Hn; simpl.
  - split; [done|]. rewrite Hrec. lia.
  - split; [by apply iter_shr_1_scaled|].
    destruct (iter_shr_1_digits p (shr_record_of_loc mx lx)) as [H1 D1];
      [by rewrite Hrec|].
    rewrite D1, Hrec. lia.
  - split; [done|]. rewrite Hrec. lia.
Qed.

(** The second shift, after the rounding: nothing, or one step when the
    rounding has carried into a 54th digit. *)
Lemma shr_fexp_rounded mx m1 e1 :
  0 <= mx ->
  Z.max (Zdigits2 mx + e1 - 53) (-1074) = e1 ->
  m1 = mx \/ m1 = mx + 1 ->
  let res := shr_fexp prec emax m1 e1 loc_Exact in
  (shr_m res.1 = m1 /\ res.2 = e1
   /\ Z.max (Zdigits2 m1 + e1 - 53) (-1074) = e1)
  \/ (m1 = 2 ^ 53 /\ mx = 2 ^ 53 - 1
      /\ shr_m res.1 = 2 ^ 52 /\ res.2 = e1 + 1).
Proof.
  intros Hm Hcan Hm1.
  assert (0 <= m1) as Hm1' by lia.
  pose proof (Zdigits2_nonneg mx Hm) as Hdn.
  assert (Zdigits2 mx <= Zdigits2 m1 <= Zdigits2 mx + 1) as Hd1.
  { destruct Hm1 as [->| ->]; [lia|]. split.
    - apply Zdigits2_mono. lia.
    - by apply Zdigits2_succ. }
  destruct (Z.eq_dec (Zdigits2 m1) 54) as [H54|H54].
  - right.
    assert (Zdigits2 mx = 53) as H53 by lia.
    assert (mx < 2 ^ 53) as Hlt.
    { destruct mx as [|p|p]; [done| |lia].
      pose proof (Zdigits2_bounds p) as [_ Hb]. by rewrite H53 in Hb. }
    assert (2 ^ 53 <= m1) as Hge.
    { destruct m1 as [|p|p]; [done| |lia].
      pose proof (Zdigits2_bounds p) as [Hb _]. by rewrite H54 in Hb. }
    assert (m1 = 2 ^ 53) as -> by lia.
    split; [done|]. split; [lia|].
    unfold shr_fexp, shr, fexp, emin, prec, emax.
    replace (Z.max (Zdigits2 (2 ^ 53) + e1 - 53) (3 - 1024 - 53) - e1)
      with 1 by (simpl Zdigits2 in *; lia).
    split; reflexivity.
  - left. unfold shr_fexp, shr, fexp, emin, prec, emax.
    assert (Z.max (Zdigits2 m1 + e1 - 53) (3 - 1024 - 53) - e1 = 0) as ->
      by lia.
    simpl. split; [done|]. split; [done|]. lia.
Qed.


(** Halving an even mantissa while the exponent goes up by one. *)
Lemma nearest_even_half a b ex mx :
  0 < a -> 0 < b -> Z.even mx = true ->
  nearest_even (scaled_num a ex) (scaled_den b ex) (2 * mx) ->
  nearest_even (scaled_num a (ex + 1)) (scaled_den b (ex + 1)) mx.
Proof.
  intros Ha Hb Hev [Hle _]. unfold nearest_even. rewrite Hev.
  pose proof (scaled_den_pos b ex Hb) as HD.
  destruct (scaled_step a b ex) as [[HN HD']|[HN HD']];
    rewrite HD'; rewrite HN in *; (split; [lia|done]).
Qed.

(** The rounding of a located fraction [a / b]: the nearest binary64
    number, the even one on a tie; an infinity from 2^1024 - 2^970 on. *)
Lemma binary_round_aux_nearest sx a b mx ex lx :
  0 < a -> 0 < b -> 0 <= mx ->
  (-1074 < ex -> 53 <= Zdigits2 mx) ->
  located (scaled_num a ex) (scaled_den b ex) (shr_record_of_loc mx lx) ->
  binary64_round sx a b (binary_round_aux prec emax sx mx ex lx).
Proof.
  intros Ha Hb Hm Hdig Hloc. unfold binary_round_aux.
  destruct (shr_fexp_located a b mx ex lx Ha Hb Hm Hdig Hloc)
    as [Hloc1 Hcan1].
  destruct (shr_fexp prec emax mx ex lx) as [mrs1 e1]. simpl in Hloc1, Hcan1.
  pose proof (scaled_den_pos b e1 Hb) as HD.
  destruct (round_nearest_even_located _ _ _ HD Hloc1)
    as (Hnear & Hfloor & Hup).
  destruct Hloc1 as [Hm1 _].
  set (m1 := round_nearest_even (shr_m mrs1) (loc_of_shr_record mrs1)) in *.
  assert (m1 = shr_m mrs1 \/ m1 = shr_m mrs1 + 1) as Hm1' by tauto.
  pose proof (shr_fexp_rounded (shr_m mrs1) m1 e1 Hm1 Hcan1 Hm1') as H2.
  destruct (shr_fexp prec emax m1 e1 loc_Exact) as [mrs2 e2]. simpl in H2.
  pose proof (Zdigits2_nonneg _ Hm1) as Hdn.
  assert (-1074 < e1 -> 2 ^ 52 <= shr_m mrs1) as Hnormal.
  { intros Hgt. assert (Zdigits2 (shr_m mrs1) = 53) as H53 by lia.
    destruct (shr_m mrs1) as [|pm|pm]; [done| |lia].
    pose proof (Zdigits2_bounds pm) as [Hl _]. by rewrite H53 in Hl. }
  destruct H2 as [(Hm2 & -> & Hcan2)|(Hm1eq & Hmeq & Hm2 & ->)].
  - (* no carry *)
    rewrite Hm2. clearbody m1. destruct m1 as [|p|p]; [| |lia].
    + simpl in Hcan2. assert (e1 = -1074) as -> by lia. done.
    + pose proof (Zdigits2_bounds p) as [Hb1 Hb2].
      assert (1 <= Zdigits2 (Zpos p)) as Hd1 by (simpl; lia).
      unfold emax, prec. destruct (Z.leb_spec e1 (1024 - 53)) as [Hle|Hgt].
      * split; [done|]. split; [lia|]. split; [|split; [|done]].
        -- apply Z.lt_le_trans with (2 ^ Zdigits2 (Z.pos p)); [done|].
           apply Z.pow_le_mono_r; lia.
        -- destruct (Z.eq_dec e1 (-1074)) as [|Hne]; [by left|right].
           specialize (Hnormal ltac:(lia)).
           change (2 ^ 54 - 1) with (4 * 2 ^ 52 - 1).
           set (K := 2 ^ 52) in *. nia.
      * split; [done|]. specialize (Hnormal ltac:(lia)).
        unfold scaled_num, scaled_den in Hfloor.
        replace (Z.max (- e1) 0) with 0 in Hfloor by lia.
        replace (Z.max e1 0) with (972 + (e1 - 972)) in Hfloor by lia.
        rewrite Z.pow_add_r in Hfloor by lia.
        assert (1 <= 2 ^ (e1 - 972)) as Hp.
        { change 1 with (2 ^ 0). apply Z.pow_le_mono_r; lia. }
        change (2 ^ 0) with 1 in Hfloor.
        set (P := 2 ^ (e1 - 972)) in *.
        set (K := 2 ^ 972) in *.
        assert (2 ^ 52 * (b * (K * P)) <= a) as H by nia.
        assert (b * K <= b * (K * P)) as H' by (subst K; nia).
        subst K. lia.
  - (* carry into the 54th digit *)
    rewrite Hm2. change (2 ^ 52) with (Zpos (2 ^ 52)).
    destruct Hup as [Hup|[_ Hup]]; [lia|].
    rewrite Hm1eq in Hnear. rewrite Hmeq in Hup.
    replace (2 * (2 ^ 53 - 1) + 1) with (2 ^ 54 - 1) in Hup by lia.
    unfold emax, prec. destruct (Z.leb_spec (e1 + 1) (1024 - 53)) as [Hle|Hgt].
    + split; [done|]. split; [lia|]. split; [done|]. split.
      * right. pose proof (scaled_num_pos a (e1 + 1) Ha) as HN.
        destruct (scaled_step a b e1) as [[HN' HD']|[HN' HD']];
          rewrite HD'; rewrite HN' in *; lia.
      * by apply nearest_even_half.
    + split; [done|].
      unfold scaled_num, scaled_den in Hup.
      replace (Z.max (- e1) 0) with 0 in Hup by lia.
      replace (Z.max e1 0) with (971 + (e1 - 971)) in Hup by lia.
      rewrite Z.pow_add_r in Hup by lia.
      assert (1 <= 2 ^ (e1 - 971)) as Hp.
      { change 1 with (2 ^ 0). apply Z.pow_le_mono_r; lia. }
      change (2 ^ 0) with 1 in Hup.
      set (P := 2 ^ (e1 - 971)) in *.
      change (2 ^ 971) with (2 * 2 ^ 970) in Hup.
      set (K := 2 ^ 970) in *.
      assert (0 < K) by (subst K; lia).
      set (C := 2 ^ 54 - 1) in *. assert (0 < C) by (subst C; lia).
      assert (C * (b * K) <= C * (b * (K * P))) by nia.
      nia.
Qed.

(** Division of two finite floats. *)
Lemma SFdiv_finite_round sx mx ex sy my ey :
  binary64_round (xorb sx sy)
    (scaled_num (Zpos mx) (ey - ex)) (scaled_den (Zpos my) (ey - ex))
    (SFdiv prec emax (S754_finite sx mx ex) (S754_finite sy my ey)).
Proof.
  unfold SFdiv.
  destruct (SFdiv_core_binary_located mx ex my ey) as (Hq & Hd & Hloc).
  destruct (SFdiv_core_binary prec emax (Z.pos mx) ex (Z.pos my) ey)
    as [[mz ez] lz]. simpl in Hq, Hd, Hloc.
  apply binary_round_aux_nearest; try done.
  - by apply scaled_num_pos.
  - by apply scaled_den_pos.
Qed.

Lemma pos_iter_xO p d : Zpos (Pos.iter xO p d) = Zpos p * 2 ^ Zpos d.
Proof.
  rewrite <- Z.shiftl_mul_pow2 by lia. simpl.
  by apply Pos.iter_swap_gen.
Qed.

(** The conversion of an int. *)
Lemma binary_normalize_round n :
  n <> 0 ->
  binary64_round (n <? 0) (Z.abs n) 1 (binary_normalize prec emax n 0 false).
Proof.
  intros Hn.
  assert (forall s p, binary64_round s (Zpos p) 1 (binary_round prec emax s p 0))
    as Hround.
  { intros s p. unfold binary_round, shl_align, fexp, emin, prec, emax.
    pose proof (Zdigits2_bounds p) as [Hb1 Hb2].
    assert (1 <= Zdigits2 (Zpos p)) as Hd1 by (simpl; lia).
    change (Z.pos (digits2_pos p)) with (Zdigits2 (Z.pos p)).
    set (dp := Zdigits2 (Z.pos p)) in *.
    destruct (Z.max (dp + 0 - 53) (3 - 1024 - 53) - 0) as [|k|k] eqn:Hk.
    - apply binary_round_aux_nearest; [done|done|done| |].
      + fold dp. lia.
      + split; simpl; [done|]. unfold scaled_num, scaled_den.
        change (Z.max (- 0) 0) with 0. change (Z.max 0 0) with 0.
        change (2 ^ 0) with 1. lia.
    - apply binary_round_aux_nearest; [done|done|done| |].
      + fold dp. lia.
      + split; simpl; [done|]. unfold scaled_num, scaled_den.
        change (Z.max (- 0) 0) with 0. change (Z.max 0 0) with 0.
        change (2 ^ 0) with 1. lia.
    - replace (Z.max (dp + 0 - 53) (3 - 1024 - 53)) with (Z.neg k) by lia.
      apply binary_round_aux_nearest; [done|done|done| |].
      + intros _. rewrite pos_iter_xO, <- Z.shiftl_mul_pow2 by lia.
        rewrite Zdigits2_shiftl by lia. fold dp. lia.
      + split; simpl; [done|]. rewrite pos_iter_xO.
        unfold scaled_num, scaled_den.
        change (- Z.neg k) with (Z.pos k).
        replace (Z.max (Z.pos k) 0) with (Z.pos k) by lia.
        replace (Z.max (Z.neg k) 0) with 0 by lia.
        change (2 ^ 0) with 1. lia. }
  destruct n as [|p|p]; [done|apply Hround..].
Qed.

(** The same fraction at two exponents. *)
Lemma scaled_shift a b ex k :
  0 <= k ->
  scaled_num a ex * scaled_den b (ex + k)
    = scaled_num a (ex + k) * scaled_den b ex * 2 ^ k.
Proof.
  intros Hk. unfold scaled_num, scaled_den.
  transitivity (a * b * (2 ^ Z.max (- ex) 0 * 2 ^ Z.max (ex + k) 0)); [ring|].
  transitivity (a * b * (2 ^ Z.max (- (ex + k)) 0 * 2 ^ Z.max ex 0 * 2 ^ k));
    [|ring].
  f_equal. rewrite <- !Z.pow_add_r by lia. f_equal. lia.
Qed.

(** A number below the largest mantissa and a half. *)
Lemma nearest_even_below N D mx :
  0 < D -> 0 < mx < 2 ^ 53 -> nearest_even N D mx ->
  2 * N < (2 ^ 54 - 1) * D.
Proof.
  intros HD Hm [Hle Htie].
  destruct (Z.eq_dec mx (2 ^ 53 - 1)) as [->|Hne].
  - destruct (Z.eq_dec (2 * Z.abs ((2 ^ 53 - 1) * D - N)) D) as [Heq|Hneq].
    + by apply Htie in Heq.
    + lia.
  - assert (mx <= 2 ^ 53 - 2) as Hm' by lia.
    set (K := 2 ^ 53) in *.
    replace (2 ^ 54 - 1) with (2 * K - 1) by (subst K; lia). nia.
Qed.

(** At most one float is the rounding of a fraction. *)
Lemma binary64_round_unique s N D z1 z2 :
  0 <= N -> 0 < D ->
  binary64_round s N D z1 -> binary64_round s N D z2 -> z1 = z2.
Proof.
  intros HN HD.
  assert (forall ex, 0 <= scaled_num N ex) as HNe.
  { intros ex. apply Z.mul_nonneg_nonneg; [done|]. apply Z.pow_nonneg. lia. }
  assert (forall ex, 0 < scaled_den D ex) as HDe
    by (intros ex; by apply scaled_den_pos).
  (* a finite number against zero, against an infinity, against another *)
  assert (forall s1 s2 mx ex,
            binary64_round s N D (S754_zero s1) ->
            binary64_round s N D (S754_finite s2 mx ex) -> False) as Hzf.
  { intros s1 s2 mx ex (_ & Hz & _) (_ & He & Hm & Hn & Hnear).
    pose proof (HNe (-1074)) as HN0. pose proof (HDe (-1074)) as HD0.
    pose proof (HNe ex) as HN1. pose proof (HDe ex) as HD1.
    destruct (Z.eq_dec ex (-1074)) as [->|Hne].
    - destruct Hnear as [Hle Htie].
      destruct (Z.eq_dec (Z.pos mx) 1) as [H1|H1].
      + rewrite H1 in *. assert (Z.even 1 = true) as Hev; [|done].
        apply Htie. lia.
      + nia.
    - destruct Hn as [|Hn]; [done|].
      pose proof (scaled_shift N D (-1074) (ex + 1074) ltac:(lia)) as Hs.
      replace (-1074 + (ex + 1074)) with ex in Hs by lia.
      assert (2 <= 2 ^ (ex + 1074)) as Hp.
      { change 2 with (2 ^ 1) at 1. apply Z.pow_le_mono_r; lia. }
      set (P := 2 ^ (ex + 1074)) in *.
      set (N0 := scaled_num N (-1074)) in *.
      set (D0 := scaled_den D (-1074)) in *.
      set (N1 := scaled_num N ex) in *.
      set (D1 := scaled_den D ex) in *.
      assert (2 * N0 <= D0) as Hz' by lia.
      assert (2 ^ 54 - 1 >= 4) as HC by lia.
      set (C := 2 ^ 54 - 1) in *.
      (* N0 * D1 = N1 * D0 * P, 2 N0 <= D0, C D1 <= 4 N1 *)
      assert (2 * (N0 * D1) <= D0 * D1) as H1 by nia.
      assert (D0 * (C * D1) <= D0 * (4 * N1)) as H2 by nia.
      assert (N1 * D0 * 2 <= N1 * D0 * P) as H3 by nia.
      assert (0 < D0 * D1) as H4 by nia.
      nia. }
  assert (forall s1 s2 mx ex,
            binary64_round s N D (S754_infinity s1) ->
            binary64_round s N D (S754_finite s2 mx ex) -> False) as Hif.
  { intros s1 s2 mx ex (_ & Hi) (_ & He & Hm & Hn & Hnear).
    assert (0 < Z.pos mx < 2 ^ 53) as Hm' by lia.
    pose proof (nearest_even_below _ _ _ (HDe ex) Hm' Hnear) as Hlt.
    unfold scaled_num, scaled_den in Hlt.
    assert (0 < 2 ^ 54 - 1) as HC by lia.
    set (C := 2 ^ 54 - 1) in *.
    destruct (Z_lt_dec ex 0) as [Hneg|Hpos].
    - replace (Z.max ex 0) with 0 in Hlt by lia.
      change (2 ^ 0) with 1 in Hlt.
      assert (1 <= 2 ^ Z.max (- ex) 0) as Hp.
      { change 1 with (2 ^ 0). apply Z.pow_le_mono_r; lia. }
      set (P := 2 ^ Z.max (- ex) 0) in *.
      assert (1 <= 2 ^ 970) as HK by lia.
      set (K := 2 ^ 970) in *.
      assert (C * D <= C * K * D) by nia.
      nia.
    - replace (Z.max (- ex) 0) with 0 in Hlt by lia.
      change (2 ^ 0) with 1 in Hlt.
      assert (2 ^ Z.max ex 0 <= 2 ^ 971) as Hp
        by (apply Z.pow_le_mono_r; lia).
      change (2 ^ 971) with (2 * 2 ^ 970) in Hp.
      set (P := 2 ^ Z.max ex 0) in *.
      assert (0 < 2 ^ 970) as HK by lia.
      set (K := 2 ^ 970) in *.
      assert (C * (D * P) <= C * (D * (2 * K))) by nia.
      nia. }
  assert (forall s1 s2,
            binary64_round s N D (S754_zero s1) ->
            binary64_round s N D (S754_infinity s2) -> False) as Hzi.
  { intros s1 s2 (_ & Hz & _) (_ & Hi).
    unfold scaled_num, scaled_den in Hz.
    change (Z.max (- -1074) 0) with 1074 in Hz.
    change (Z.max (-1074) 0) with 0 in Hz. change (2 ^ 0) with 1 in Hz.
    assert (1 <= 2 ^ 1074) as HP by lia. set (P := 2 ^ 1074) in *.
    assert (1 <= (2 ^ 54 - 1) * 2 ^ 970) as HC by lia.
    set (C := (2 ^ 54 - 1) * 2 ^ 970) in *.
    assert (N <= N * P) by nia. nia. }
  assert (forall s1 s2 m1 e1 m2 e2,
            e1 < e2 ->
            binary64_round s N D (S754_finite s1 m1 e1) ->
            binary64_round s N D (S754_finite s2 m2 e2) -> False) as Hlt.
  { intros s1 s2 m1 e1 m2 e2 Hlt (_ & He1 & Hm1 & _ & Hnear1)
      (_ & He2 & _ & Hn2 & _).
    destruct Hn2 as [|Hn2]; [lia|].
    assert (0 < Z.pos m1 < 2 ^ 53) as Hm1' by lia.
    pose proof (nearest_even_below _ _ _ (HDe e1) Hm1' Hnear1) as Hb.
    pose proof (scaled_shift N D e1 (e2 - e1) ltac:(lia)) as Hs.
    replace (e1 + (e2 - e1)) with e2 in Hs by lia.
    assert (2 <= 2 ^ (e2 - e1)) as Hp.
    { change 2 with (2 ^ 1) at 1. apply Z.pow_le_mono_r; lia. }
    set (P := 2 ^ (e2 - e1)) in *.
    pose proof (HNe e1) as HN1. pose proof (HDe e1) as HD1.
    pose proof (HNe e2) as HN2. pose proof (HDe e2) as HD2.
    set (N1 := scaled_num N e1) in *. set (D1 := scaled_den D e1) in *.
    set (N2 := scaled_num N e2) in *. set (D2 := scaled_den D e2) in *.
    assert (0 < 2 ^ 54 - 1) as HC by lia.
    set (C := 2 ^ 54 - 1) in *.
    (* 2 N1 < C D1, C D2 <= 4 N2, N1 D2 = N2 D1 P, P >= 2 *)
    assert (2 * N1 * D2 < C * D1 * D2) as H1 by nia.
    assert (D1 * (C * D2) <= D1 * (4 * N2)) as H2 by nia.
    assert (N2 * D1 * 2 <= N2 * D1 * P) as H3 by nia.
    nia. }
  destruct z1 as [s1|s1| |s1 m1 e1], z2 as [s2|s2| |s2 m2 e2];
    intros H1 H2; try done;
    try (exfalso; by eauto).
  - destruct H1 as [-> _], H2 as [-> _]. done.
  - destruct H1 as [-> _], H2 as [-> _]. done.
  - destruct (Z.lt_total e1 e2) as [Hlt'|[->|Hgt]];
      [exfalso; by eauto| |exfalso; by eauto].
    destruct H1 as (-> & _ & _ & _ & Hle1 & Htie1).
    destruct H2 as (-> & _ & _ & _ & Hle2 & Htie2).
    pose proof (HDe e2) as HD2.
    set (N2 := scaled_num N e2) in *. set (D2 := scaled_den D e2) in *.
    assert (Z.pos m1 = Z.pos m2) as Heq; [|by injection Heq as ->].
    destruct (Z.lt_total (Z.pos m1) (Z.pos m2)) as [Hm|[Hm|Hm]]; [|done|].
    + assert (Z.pos m2 = Z.pos m1 + 1) as Hsucc by nia.
      assert (Z.even (Z.pos m1) = true) as Hev1 by (apply Htie1; nia).
      assert (Z.even (Z.pos m2) = true) as Hev2 by (apply Htie2; nia).
      rewrite Hsucc, Z.even_add, Hev1 in Hev2. done.
    + assert (Z.pos m1 = Z.pos m2 + 1) as Hsucc by nia.
      assert (Z.even (Z.pos m1) = true) as Hev1 by (apply Htie1; nia).
      assert (Z.even (Z.pos m2) = true) as Hev2 by (apply Htie2; nia).
      rewrite Hsucc, Z.even_add, Hev2 in Hev1. done.
Qed.

(** ** The divisions of the module *)

Lemma scaled_num_0 a : scaled_num a 0 = a.
Proof. unfold scaled_num. change (2 ^ Z.max (- 0) 0) with 1. lia. Qed.

Lemma scaled_den_0 b : scaled_den b 0 = b.
Proof. unfold scaled_den. change (2 ^ Z.max 0 0) with 1. lia. Qed.

(** True division of ints: the rounding of the exact quotient, or
    [OverflowError] where that is an infinity. *)
Lemma int_true_divide_round a b :
  b <> 0 ->
  match int_true_divide a b with
  | Ok x =>
      is_number x = true
      /\ binary64_round (xorb (a <? 0) (b <? 0)) (Z.abs a) (Z.abs b) x
  | Raise ex =>
      exn_cls ex = OverflowError
      /\ (2 ^ 54 - 1) * 2 ^ 970 * Z.abs b <= Z.abs a
  | Stuck => False
  end.
Proof.
  intros Hb. unfold int_true_divide.
  destruct (Z.eqb_spec b 0) as [|_]; [done|].
  assert (forall pa,
            Zpos pa = Z.abs a ->
            match
              match SFdiv prec emax (S754_finite (a <? 0) pa 0)
                      (S754_finite (b <? 0) (Z.to_pos (Z.abs b)) 0) with
              | S754_infinity _ =>
                  Raise (Exn OverflowError
                           "integer division result too large for a float"
                           None)
              | q => Ok q
              end
            with
            | Ok x =>
                is_number x = true
                /\ binary64_round (xorb (a <? 0) (b <? 0)) (Z.abs a)
                     (Z.abs b) x
            | Raise ex =>
                exn_cls ex = OverflowError
                /\ (2 ^ 54 - 1) * 2 ^ 970 * Z.abs b <= Z.abs a
            | Stuck => False
            end) as Hdiv.
  { intros pa Hpa.
    pose proof (SFdiv_finite_round (a <? 0) pa 0 (b <? 0)
                  (Z.to_pos (Z.abs b)) 0) as H.
    change (0 - 0) with 0 in H.
    rewrite scaled_num_0, scaled_den_0, Z2Pos.id, Hpa in H by lia.
    destruct (SFdiv _ _ _ _); simpl; [done| |done|done].
    split; [done|]. by destruct H. }
  destruct a as [|pa|pa]; [|by apply Hdiv..].
  split; [done|]. simpl. split; [done|].
  unfold nearest_even, scaled_num, scaled_den.
  assert (0 < 2 ^ Z.max (-1074) 0) by done. split; [nia|nia].
Qed.

(** The conversion of an int to a float: its rounding, or
    [OverflowError] where that is an infinity. *)
Lemma int_to_float_round b :
  b <> 0 ->
  binary64_round (b <? 0) (Z.abs b) 1 (binary_normalize prec emax b 0 false)
  /\ match binary_normalize prec emax b 0 false with
     | S754_finite sy my ey =>
         int_to_float b = Ok (S754_finite sy my ey)
     | S754_infinity _ => raises OverflowError (int_to_float b)
     | S754_zero _ | S754_nan => False
     end.
Proof.
  intros Hb. pose proof (binary_normalize_round b Hb) as Hround.
  split; [done|]. unfold int_to_float.
  destruct (binary_normalize prec emax b 0 false) as [s|s| |s mx ex];
    try done.
  destruct Hround as [_ [Hle _]].
  unfold scaled_num, scaled_den in Hle.
  change (Z.max (- -1074) 0) with 1074 in Hle.
  change (Z.max (-1074) 0) with 0 in Hle.
  assert (1 <= 2 ^ 1074) by lia. set (P := 2 ^ 1074) in *.
  change (2 ^ 0) with 1 in Hle. nia.
Qed.

(** A float divided by an int: the int is converted, and the quotient
    of the two floats is that of IEEE 754. *)
Lemma float_true_divide_round x b :
  b <> 0 ->
  exists y,
    binary64_round (b <? 0) (Z.abs b) 1 y
    /\ match y with
       | S754_finite sy my ey =>
           exists z, float_true_divide x b = Ok z
                     /\ float_quotient x sy my ey z
       | S754_infinity _ => raises OverflowError (float_true_divide x b)
       | S754_zero _ | S754_nan => False
       end.
Proof.
  intros Hb. destruct (int_to_float_round b Hb) as [Hround Hy].
  exists (binary_normalize prec emax b 0 false). split; [done|].
  unfold float_true_divide.
  destruct (binary_normalize prec emax b 0 false) as [s|s| |sy my ey];
    try done.
  - by destruct (int_to_float b).
  - rewrite Hy. destruct (Z.eqb_spec b 0) as [|_]; [done|].
    eexists. split; [done|].
    destruct x as [sx|sx| |sx mx ex]; try done.
    pose proof (SFdiv_finite_round sx mx ex sy my ey) as H.
    unfold scaled_num, scaled_den in H.
    by replace (Z.max (- (ey - ex)) 0) with (Z.max (ex - ey) 0) in H by lia.
Qed.
End Division.
(** ** Frame rules of the monad *)

Section Frame.
Context {S B : Type} (proj : S -> B).

Lemma preserves_ret {A} (a : A) : preserves proj (ret a).
Proof. by intros w. Qed.

Lemma preserves_raise {A} e : preserves proj (raise (A:=A) e).
Proof. by intros w. Qed.

Lemma preserves_gets {A} (f : S -> A) : preserves proj (gets f).
Proof. by intros w. Qed.

Lemma preserves_lift {A} (o : outcome A) : preserves proj (lift o).
Proof. by intros w. Qed.

Lemma preserves_modify (f : S -> S) :
  (forall w, proj (f w) = proj w) -> preserves proj (modify f).
Proof. intros Hf w. apply Hf. Qed.

Lemma preserves_bind {A C} (c : M S A) (k : A -> M S C) :
  preserves proj c -> (forall a, preserves proj (k a)) ->
  preserves proj (bind c k).
Proof.
  intros Hc Hk w. unfold bind. specialize (Hc w).
  destruct (c w) as [[a| e |] w1]; simpl in *; try done.
  by rewrite Hk.
Qed.

Lemma preserves_try_except {A} (c : M S A) (h : exn -> M S A) :
  preserves proj c -> (forall e, preserves proj (h e)) ->
  preserves proj (try_except c h).
Proof.
  intros Hc Hh w. unfold try_except. specialize (Hc w).
  destruct (c w) as [[a| e |] w1]; simpl in *; try done.
  by rewrite Hh.
Qed.

Lemma preserves_for_each {A C} (f : A -> C -> M S A) (l : list C) :
  (forall a x, preserves proj (f a x)) ->
  forall a, preserves proj (for_each f a l).
Proof.
  intros Hf. induction l as [|x l IH]; intros a; simpl.
  - apply preserves_ret.
  - apply preserves_bind; auto.
Qed.
End Frame.

Create HintDb frame discriminated.

Ltac frame_step :=
  match goal with
  | |- preserves _ (bind _ _) => apply preserves_bind; [|intros ?]
  | |- preserves _ (try_except _ _) => apply preserves_try_except; [|intros ?]
  | |- preserves _ (for_each _ _ _) => apply preserves_for_each; intros ? ?
  | |- preserves _ (ret _) => apply preserves_ret
  | |- preserves _ (raise _) => apply preserves_raise
  | |- preserves _ (gets _) => apply preserves_gets
  | |- preserves _ (lift _) => apply preserves_lift
  | |- preserves _ (match ?x with _ => _ end) => destruct x
  end.

Ltac frame := repeat (first [ solve [auto with frame] | frame_step ]).

Section Theory.
Context {Api : Type} `{!Discovergy Api} `{!Const}.

Implicit Types (w : World Api) (l : loc) (entry : ConfigEntry).
Implicit Types (m meter : Meter) (r : Reading) (e : DiscovergySensor).

Local Abbreviation tables := (tables (Api:=Api)).

(** ** What the operations leave alone *)

Section Static.
Context {B : Type} (proj : World Api -> B) (Hs : static proj).

Lemma log_static ev : preserves proj (log ev).
Proof. intros w. apply Hs. Qed.

Lemma update_static l f : preserves proj (update l f).
Proof. intros w. apply Hs. Qed.

Lemma deref_preserves l : preserves proj (deref l).
Proof. intros w. unfold deref. by destruct (heap w !! l). Qed.

Lemma deref_description_preserves ref :
  preserves proj (deref_description ref).
Proof.
  intros w. unfold deref_description.
  by destruct (table ref.1 w !! ref.2).
Qed.

Lemma coordinator_data_values_preserves l :
  preserves proj (coordinator_data_values l).
Proof.
  unfold coordinator_data_values.
  apply preserves_bind; [apply deref_preserves|]. intros c.
  destruct (data c); [apply preserves_ret|apply preserves_raise].
Qed.

Lemma call_get_last_reading_static id :
  preserves proj (call_get_last_reading id).
Proof.
  unfold call_get_last_reading.
  apply preserves_bind; [apply log_static|].
  intros _ w.
  destruct (get_last_reading (cloud w) id) as [[r|e] a]; apply Hs.
Qed.

Hint Resolve log_static update_static deref_preserves
  deref_description_preserves coordinator_data_values_preserves
  call_get_last_reading_static : frame.

Lemma async_update_data_static meter :
  preserves proj (async_update_data meter).
Proof. unfold async_update_data. frame. Qed.

Hint Resolve async_update_data_static : frame.

Lemma get_coordinator_for_meter_static meter interval :
  preserves proj (get_coordinator_for_meter meter interval).
Proof.
  unfold get_coordinator_for_meter, DataUpdateCoordinator_new. frame.
  apply preserves_modify. intros w. apply Hs.
Qed.

Lemma async_config_entry_first_refresh_static l :
  preserves proj (async_config_entry_first_refresh l).
Proof. unfold async_config_entry_first_refresh. frame. Qed.

Lemma async_refresh_static l : preserves proj (async_refresh l).
Proof. unfold async_refresh. frame. Qed.

Lemma DiscovergySensor_init_static k ref d meter l :
  preserves proj (DiscovergySensor_init k ref d meter l).
Proof. unfold DiscovergySensor_init. frame. Qed.

Hint Resolve get_coordinator_for_meter_static
  async_config_entry_first_refresh_static DiscovergySensor_init_static
  : frame.

Lemma setup_meter_static entry interval es meter :
  preserves proj (setup_meter entry interval es meter).
Proof.
  unfold setup_meter, add_sensors_for_description, add_sensor_for_key.
  frame. apply preserves_modify. intros w. apply Hs.
Qed.

Lemma meter_loop_static entry interval es meters :
  preserves proj (for_each (setup_meter entry interval) es meters).
Proof. apply preserves_for_each. intros. apply setup_meter_static. Qed.
End Static.

Lemma native_value_pure self w : (native_value self w).2 = w.
Proof.
  assert (preserves (fun w => w) (native_value self)) as Hp; [|apply Hp].
  unfold native_value.
  repeat first [ apply coordinator_data_values_preserves
               | apply deref_description_preserves | frame_step ].
Qed.

Lemma tables_static : static tables.
Proof. by repeat split. Qed.

Lemma added_static : static (added (Api:=Api)).
Proof. by repeat split. Qed.

Lemma data_meters_static : static (data_meters (Api:=Api)).
Proof. by repeat split. Qed.

(** ** The description tables are never written *)

Lemma async_setup_entry_tables entry :
  preserves tables (async_setup_entry entry).
Proof.
  unfold async_setup_entry, async_add_entities.
  apply preserves_bind; [apply preserves_gets|]. intros meters.
  apply preserves_bind; [apply meter_loop_static, tables_static|].
  intros es.
  apply preserves_bind; [by apply preserves_modify|]. intros _.
  apply log_static, tables_static.
Qed.

Lemma step_tables w w' : step w w' -> tables w' = tables w.
Proof.
  destruct 1.
  - apply async_setup_entry_tables.
  - apply async_refresh_static, tables_static.
  - by rewrite native_value_pure.
Qed.

Lemma reachable_tables w :
  reachable w -> tables w = (GAS_SENSORS, ELECTRICITY_SENSORS).
Proof.
  intros (a & meters & Hrtc). revert w Hrtc.
  apply rtc_ind_r; [done|].
  intros w1 w2 _ Hstep IH. by rewrite (step_tables _ _ Hstep).
Qed.

(** ** What the setup routine computes *)

Lemma bind_Ok {S A B} (c : M S A) (k : A -> M S B) s a s' :
  c s = (Ok a, s') -> bind c k s = k a s'.
Proof. intros Hc. unfold bind. by rewrite Hc. Qed.

Lemma world_ext w1 w2 :
  cloud w1 = cloud w2 ->
  gas_sensors w1 = gas_sensors w2 ->
  electricity_sensors w1 = electricity_sensors w2 ->
  heap w1 = heap w2 ->
  data_meters w1 = data_meters w2 ->
  data_coordinators w1 = data_coordinators w2 ->
  added w1 = added w2 ->
  trace w1 = trace w2 ->
  w1 = w2.
Proof. destruct w1, w2. simpl. by intros -> -> -> -> -> -> -> ->. Qed.

Ltac world_eq :=
  apply pair_equal_spec; split; [|apply world_ext];
  simpl; rewrite <- ?app_assoc; done.

Lemma with_trace_same w : with_trace (trace w ++ []) w = w.
Proof. destruct w. unfold with_trace. simpl. by rewrite app_nil_r. Qed.

Lemma coordinator_data_values_Ok w l c r :
  heap w !! l = Some c -> data c = Some r ->
  coordinator_data_values l w = (Ok (values r), w).
Proof.
  intros Hc Hd. unfold coordinator_data_values, bind, deref.
  by rewrite Hc, Hd.
Qed.


Lemma add_sensor_for_key_eq meter l ref d c r es k w :
  heap w !! l = Some c -> data c = Some r ->
  add_sensor_for_key meter l ref d es k w =
    if key_in k (values r)
    then (Ok (es ++ [DiscovergySensor_attrs k ref d meter l]),
          with_trace
            (trace w ++ [EntityBuilt (DiscovergySensor_attrs k ref d meter l)])
            w)
    else (Ok es, w).
Proof.
  intros Hc Hd. unfold add_sensor_for_key.
  rewrite (bind_Ok _ _ _ _ _ (coordinator_data_values_Ok _ _ _ _ Hc Hd)).
  by destruct (key_in k (values r)).
Qed.

Lemma key_loop meter l ref d c r ks : forall es w,
  heap w !! l = Some c -> data c = Some r ->
  for_each (add_sensor_for_key meter l ref d) es ks w =
    (Ok (es ++ map (fun k => DiscovergySensor_attrs k ref d meter l)
                 (List.filter (fun k => key_in k (values r)) ks)),
     with_trace
       (trace w ++ map EntityBuilt
          (map (fun k => DiscovergySensor_attrs k ref d meter l)
             (List.filter (fun k => key_in k (values r)) ks))) w).
Proof.
  induction ks as [|k ks IH]; intros es w Hc Hd; simpl.
  - unfold ret. by rewrite app_nil_r, with_trace_same.
  - unfold bind. rewrite (add_sensor_for_key_eq _ _ _ _ _ _ _ _ _ Hc Hd).
    destruct (key_in k (values r)); [|by apply IH].
    rewrite (IH _ (with_trace _ w) Hc Hd). simpl.
    by rewrite <- !app_assoc.
Qed.

Lemma description_loop meter l t c r ds : forall es w,
  heap w !! l = Some c -> data c = Some r ->
  for_each (add_sensors_for_description meter l t) es ds w =
    (Ok (es ++ flat_map (sensors_for_description meter l t (values r)) ds),
     with_trace
       (trace w ++ map EntityBuilt
          (flat_map (sensors_for_description meter l t (values r)) ds)) w).
Proof.
  induction ds as [|d ds IH]; intros es w Hc Hd; simpl.
  - unfold ret. by rewrite app_nil_r, with_trace_same.
  - unfold bind. unfold add_sensors_for_description at 1. 
    rewrite (key_loop _ _ _ _ _ _ _ _ _ Hc Hd).
    rewrite (IH _ (with_trace _ w) Hc Hd). simpl.
    unfold sensors_for_description at 2 4.
    by rewrite !map_app, <- !app_assoc.
Qed.

Lemma alter_last {A} (f : A -> A) (h : list A) (x : A) :
  alter f (length h) (h ++ [x]) = h ++ [f x].
Proof.
  induction h as [|y h IH]; simpl; [done|]. by f_equal.
Qed.

Lemma lookup_last {A} (h : list A) (x : A) :
  (h ++ [x]) !! length h = Some x.
Proof. by rewrite lookup_app_r, Nat.sub_diag by lia. Qed.

Lemma sensors_for_meter_frame w w' meter l vals :
  tables w' = tables w ->
  sensors_for_meter w' meter l vals = sensors_for_meter w meter l vals.
Proof.
  intros Ht. injection Ht as Hg He. unfold sensors_for_meter, table.
  destruct (select_sensors meter) as [[|]|]; by rewrite ?Hg, ?He.
Qed.


Lemma get_coordinator_for_meter_eq meter interval w :
  get_coordinator_for_meter meter interval w =
    (Ok (length (heap w)),
     with_trace (trace w ++ [CoordinatorCreated (length (heap w)) meter])
       (with_heap
          (heap w ++ [ {| name := "sensor"; update_meter := meter;
                          update_interval := interval;
                          config_entry := None; data := None;
                          last_update_success := true |} ]) w)).
Proof. reflexivity. Qed.

Lemma async_update_data_eq meter w :
  async_update_data meter w =
    let w1 := with_trace (trace w ++ [ApiCalled (get_meter_id meter)]) w in
    match get_last_reading (cloud w) (get_meter_id meter) with
    | (Fetched r, a) => (Ok r, with_cloud a w1)
    | (Failed err, a) => (Raise (host_error err), with_cloud a w1)
    end.
Proof.
  unfold async_update_data, try_except, call_get_last_reading, bind, log,
    modify, host_error. simpl.
  destruct (get_last_reading (cloud w) (get_meter_id meter)) as [[r|err] a];
    [done|].
  unfold raise. by destruct (exn_cls err).
Qed.

Lemma async_config_entry_first_refresh_Ok l w c r a :
  heap w !! l = Some c ->
  get_last_reading (cloud w) (get_meter_id (update_meter c))
    = (Fetched r, a) ->
  async_config_entry_first_refresh l w =
    (Ok tt,
     with_trace
       (trace w ++ [ApiCalled (get_meter_id (update_meter c));
                    FirstRefreshed l])
       (with_heap
          (alter (fun c => set_last_update_success true (set_data r c))
             l (heap w))
          (with_cloud a w))).
Proof.
  intros Hc Hget. unfold async_config_entry_first_refresh.
  unfold bind at 1. unfold deref. rewrite Hc.
  unfold bind at 1. unfold try_except. rewrite async_update_data_eq.
  simpl. rewrite Hget. unfold bind, update, modify, log, modify. simpl.
  by rewrite <- app_assoc.
Qed.

Lemma async_config_entry_first_refresh_Raise l w c err a :
  heap w !! l = Some c ->
  get_last_reading (cloud w) (get_meter_id (update_meter c))
    = (Failed err, a) ->
  async_config_entry_first_refresh l w =
    (Raise (host_error err),
     with_trace
       (trace w ++ [ApiCalled (get_meter_id (update_meter c))])
       (with_heap
          (alter (set_last_update_success false) l (heap w))
          (with_cloud a w))).
Proof.
  intros Hc Hget. unfold async_config_entry_first_refresh.
  unfold bind at 1. unfold deref. rewrite Hc.
  unfold bind at 1. unfold try_except. rewrite async_update_data_eq.
  simpl. rewrite Hget. unfold bind, update, modify, log, modify. simpl.
  done.
Qed.

(** One round of the meter loop whose fetch succeeds. *)
Lemma setup_meter_Ok entry interval es meter w r a :
  get_last_reading (cloud w) (get_meter_id meter) = (Fetched r, a) ->
  setup_meter entry interval es meter w =
    (Ok (es ++ sensors_for_meter w meter (length (heap w)) (values r)),
     {| cloud := a;
        gas_sensors := gas_sensors w;
        electricity_sensors := electricity_sensors w;
        heap := heap w ++ [refreshed_coordinator entry interval meter r];
        data_meters := data_meters w;
        data_coordinators :=
          <[get_meter_id meter := length (heap w)]> (data_coordinators w);
        added := added w;
        trace := trace w ++ meter_events w (length (heap w)) meter r |}).
Proof.
  intros Hget. unfold setup_meter.
  rewrite (bind_Ok _ _ _ _ _ (get_coordinator_for_meter_eq _ _ _)).
  unfold bind at 1. unfold update at 1, modify at 1. simpl.
  rewrite alter_last.
  erewrite bind_Ok; cycle 1.
  { eapply async_config_entry_first_refresh_Ok.
    - simpl. apply lookup_last.
    - simpl. exact Hget. }
  simpl. rewrite alter_last.
  unfold bind at 1. unfold modify at 1. simpl.
  unfold bind at 1. unfold log at 1, modify at 1. simpl.
  unfold sensors_for_meter, meter_events, sensors_for_meter.
  destruct (select_sensors meter) as [t|].
  - unfold bind at 1. unfold gets at 1.
    erewrite description_loop; cycle 1.
    { simpl. apply lookup_last. }
    { reflexivity. }
    destruct t; simpl; world_eq.
  - unfold ret. simpl. rewrite app_nil_r.
    world_eq.
Qed.

(** One round of the meter loop whose fetch fails. *)
Lemma setup_meter_Raise entry interval es meter w err a :
  get_last_reading (cloud w) (get_meter_id meter) = (Failed err, a) ->
  setup_meter entry interval es meter w =
    (Raise (host_error err),
     {| cloud := a;
        gas_sensors := gas_sensors w;
        electricity_sensors := electricity_sensors w;
        heap := heap w ++ [failed_coordinator entry interval meter];
        data_meters := data_meters w;
        data_coordinators := data_coordinators w;
        added := added w;
        trace := trace w ++ [CoordinatorCreated (length (heap w)) meter;
                             ApiCalled (get_meter_id meter)] |}).
Proof.
  intros Hget. unfold setup_meter.
  rewrite (bind_Ok _ _ _ _ _ (get_coordinator_for_meter_eq _ _ _)).
  unfold bind at 1. unfold update at 1, modify at 1. simpl.
  rewrite alter_last.
  unfold bind at 1.
  erewrite async_config_entry_first_refresh_Raise; cycle 1.
  { simpl. apply lookup_last. }
  { simpl. exact Hget. }
  simpl. rewrite alter_last.
  world_eq.
Qed.

Lemma setup_entities_frame w w' l meters rs :
  tables w' = tables w ->
  setup_entities w' l meters rs = setup_entities w l meters rs.
Proof.
  intros Ht. revert l rs.
  induction meters as [|m meters IH]; intros l [|r rs]; simpl; try done.
  by rewrite IH, (sensors_for_meter_frame _ _ _ _ _ Ht).
Qed.

Lemma setup_events_frame w w' l meters rs :
  tables w' = tables w ->
  setup_events w' l meters rs = setup_events w l meters rs.
Proof.
  intros Ht. revert l rs.
  induction meters as [|m meters IH]; intros l [|r rs]; simpl; try done.
  unfold meter_events.
  by rewrite IH, (sensors_for_meter_frame _ _ _ _ _ Ht).
Qed.

Lemma first_fetches_length a meters rs a' :
  first_fetches a meters = Some (rs, a') -> length rs = length meters.
Proof.
  revert a rs a'.
  induction meters as [|m meters IH]; intros a rs a'; simpl.
  - by intros [= <- _].
  - destruct (get_last_reading a (get_meter_id m)) as [[r|err] a1]; [|done].
    destruct (first_fetches a1 meters) as [[rs' a2]|] eqn:Hrest; [|done].
    intros [= <- _]. simpl. by rewrite (IH _ _ _ Hrest).
Qed.

(** The meter loop, when the cloud answers every first fetch. *)
Lemma meter_loop_Ok entry interval meters : forall w es rs a,
  first_fetches (cloud w) meters = Some (rs, a) ->
  for_each (setup_meter entry interval) es meters w =
    (Ok (es ++ setup_entities w (length (heap w)) meters rs),
     {| cloud := a;
        gas_sensors := gas_sensors w;
        electricity_sensors := electricity_sensors w;
        heap := heap w ++
                zip_with (refreshed_coordinator entry interval) meters rs;
        data_meters := data_meters w;
        data_coordinators :=
          setup_stored (length (heap w)) meters (data_coordinators w);
        added := added w;
        trace := trace w ++ setup_events w (length (heap w)) meters rs |}).
Proof.
  induction meters as [|m meters IH]; intros w es rs a; simpl.
  - intros [= <- <-]. unfold ret. simpl. rewrite !app_nil_r.
    by destruct w.
  - destruct (get_last_reading (cloud w) (get_meter_id m)) as [[r|err] a1]
      eqn:Hget; [|done].
    destruct (first_fetches a1 meters) as [[rs' a2]|] eqn:Hrest; [|done].
    intros [= <- <-].
    unfold bind. rewrite (setup_meter_Ok _ _ _ _ _ _ _ Hget).
    erewrite IH by (simpl; exact Hrest). simpl.
    rewrite length_app, Nat.add_1_r. simpl.
    rewrite (setup_entities_frame w), (setup_events_frame w) by done.
    by rewrite <- !app_assoc.
Qed.

(** The meter loop, when a first fetch fails: the routine is left through
    one of the two host exceptions. *)
Lemma meter_loop_Raise entry interval meters : forall w es,
  first_fetches (cloud w) meters = None ->
  exists err,
    (for_each (setup_meter entry interval) es meters w).1
      = Raise (host_error err).
Proof.
  induction meters as [|m meters IH]; intros w es; simpl; [done|].
  destruct (get_last_reading (cloud w) (get_meter_id m)) as [[r|err] a1]
    eqn:Hget.
  - destruct (first_fetches a1 meters) as [[rs' a2]|] eqn:Hrest; [done|].
    intros _. unfold bind. rewrite (setup_meter_Ok _ _ _ _ _ _ _ Hget).
    apply IH. simpl. exact Hrest.
  - intros _. exists err. unfold bind.
    by rewrite (setup_meter_Raise _ _ _ _ _ _ _ Hget).
Qed.

(** The whole routine, when the cloud answers every first fetch. *)
Lemma async_setup_entry_Ok entry w rs a :
  first_fetches (cloud w) (data_meters w) = Some (rs, a) ->
  async_setup_entry entry w =
    (Ok tt,
     let es := setup_entities w (length (heap w)) (data_meters w) rs in
     {| cloud := a;
        gas_sensors := gas_sensors w;
        electricity_sensors := electricity_sensors w;
        heap := heap w ++
                zip_with
                  (refreshed_coordinator entry
                     (min_time_between_updates entry))
                  (data_meters w) rs;
        data_meters := data_meters w;
        data_coordinators :=
          setup_stored (length (heap w)) (data_meters w)
            (data_coordinators w);
        added := added w ++ [(es, false)];
        trace := trace w
                 ++ setup_events w (length (heap w)) (data_meters w) rs
                 ++ [EntitiesAdded es false] |}).
Proof.
  intros Hf. unfold async_setup_entry.
  unfold bind at 1. unfold gets at 1.
  unfold bind at 1.
  rewrite (meter_loop_Ok _ _ _ _ _ _ _ Hf). simpl.
  unfold async_add_entities, bind, modify, log, modify. simpl.
  world_eq.
Qed.

Lemma async_setup_entry_Raise entry w :
  first_fetches (cloud w) (data_meters w) = None ->
  exists err, (async_setup_entry entry w).1 = Raise (host_error err).
Proof.
  intros Hf. unfold async_setup_entry.
  unfold bind at 1. unfold gets at 1. unfold bind at 1.
  destruct (meter_loop_Raise entry (min_time_between_updates entry)
              _ w [] Hf) as [err Herr].
  exists err.
  destruct (for_each _ _ _ w) as [o w1]. simpl in Herr. by subst o.
Qed.
(** ** Which entities the loops build *)

Lemma in_enumerate {A} (xs : list A) j x :
  In (j, x) (enumerate xs) <-> xs !! j = Some x.
Proof.
  unfold enumerate. rewrite <- list_elem_of_In, elem_of_lookup_imap.
  split.
  - by intros (i & y & [= -> ->] & Hl).
  - intros Hl. by exists j, x.
Qed.

Lemma in_sensors_for_description meter l t vals d e :
  In e (sensors_for_description meter l t vals d) <->
  exists k, In k (key d.2 :: alternative_keys d.2)
            /\ key_in k vals = true
            /\ e = DiscovergySensor_attrs k (t, d.1) d.2 meter l.
Proof.
  unfold sensors_for_description. rewrite in_map_iff. split.
  - intros (k & <- & Hk). apply filter_In in Hk as [Hk1 Hk2].
    by exists k.
  - intros (k & Hk1 & Hk2 & ->). exists k. split; [done|].
    apply filter_In. by split.
Qed.

Lemma in_sensors_for_meter w meter l vals e :
  In e (sensors_for_meter w meter l vals) <->
  exists t j d k,
    select_sensors meter = Some t
    /\ table t w !! j = Some d
    /\ In k (key d :: alternative_keys d)
    /\ key_in k vals = true
    /\ e = DiscovergySensor_attrs k (t, j) d meter l.
Proof.
  unfold sensors_for_meter. split.
  - destruct (select_sensors meter) as [t|]; [|done].
    rewrite in_flat_map. intros ([j d] & Hjd & He).
    apply in_enumerate in Hjd.
    apply in_sensors_for_description in He as (k & Hk1 & Hk2 & ->).
    by exists t, j, d, k.
  - intros (t & j & d & k & -> & Hjd & Hk1 & Hk2 & ->).
    apply in_flat_map. exists (j, d). split; [by apply in_enumerate|].
    apply in_sensors_for_description. by exists k.
Qed.

Lemma in_setup_entities w meters : forall l rs e,
  In e (setup_entities w l meters rs) <->
  exists i m r,
    meters !! i = Some m /\ rs !! i = Some r
    /\ In e (sensors_for_meter w m (l + i) (values r)).
Proof.
  induction meters as [|m meters IH]; intros l rs e; simpl.
  - split; [done|]. by intros (i & m & r & Hm & _).
  - destruct rs as [|r rs].
    { split; [done|]. by intros (i & m' & r & _ & Hr & _). }
    rewrite in_app_iff, IH. split.
    + intros [He|(i & m' & r' & Hm & Hr & He)].
      * exists 0, m, r. by rewrite Nat.add_0_r.
      * exists (S i), m', r'. by rewrite Nat.add_succ_r.
    + intros ([|i] & m' & r' & Hm & Hr & He); simpl in *.
      * left. injection Hm as <-. injection Hr as <-.
        by rewrite Nat.add_0_r in He.
      * right. exists i, m', r'. by rewrite Nat.add_succ_r in He.
Qed.

(** ** The order of the effects *)

Lemma setup_events_cons w l m meters r rs :
  setup_events w l (m :: meters) (r :: rs)
    = meter_events w l m r ++ setup_events w (S l) meters rs.
Proof. reflexivity. Qed.

Lemma sensors_for_meter_coordinator w meter l vals e :
  In e (sensors_for_meter w meter l vals) -> coordinator e = l.
Proof.
  intros He. apply in_sensors_for_meter in He.
  by destruct He as (t & j & d & k & _ & _ & _ & _ & ->).
Qed.

Lemma refreshed_before_built_app evs1 evs2 :
  refreshed_before_built evs1 -> refreshed_before_built evs2 ->
  refreshed_before_built (evs1 ++ evs2).
Proof.
  intros H1 H2 p e Hp.
  apply lookup_app_Some in Hp as [Hp|[Hlen Hp]].
  - destruct (H1 p e Hp) as (q & Hq & Hl). exists q. split; [done|].
    by apply lookup_app_l_Some.
  - destruct (H2 _ e Hp) as (q & Hq & Hl).
    exists (length evs1 + q). split; [lia|].
    rewrite lookup_app_r by lia.
    by replace (length evs1 + q - length evs1) with q by lia.
Qed.

Lemma meter_events_order w l meter r :
  refreshed_before_built (meter_events w l meter r).
Proof.
  intros p e Hp. unfold meter_events in *.
  destruct p as [|[|[|[|p]]]]; simpl in Hp; try done.
  apply list_elem_of_lookup_2, list_elem_of_In, in_map_iff in Hp
    as (e' & [= ->] & He).
  apply sensors_for_meter_coordinator in He as ->.
  exists 2. split; [lia|done].
Qed.

Lemma setup_events_order w meters : forall l rs,
  refreshed_before_built (setup_events w l meters rs).
Proof.
  induction meters as [|m meters IH]; intros l [|r rs];
    try (by intros p e Hp; simpl in Hp).
  rewrite setup_events_cons.
  apply refreshed_before_built_app; [apply meter_events_order|apply IH].
Qed.

Lemma created_setup_events w meters : forall l rs,
  length rs = length meters ->
  omap created (setup_events w l meters rs)
    = imap (fun i m => (l + i, m)) meters.
Proof.
  induction meters as [|m meters IH]; intros l [|r rs] Hlen; try done.
  rewrite setup_events_cons. simpl in Hlen.
  rewrite omap_app, IH by lia. unfold meter_events.
  rewrite omap_app. simpl.
  assert (omap created (map EntityBuilt
            (sensors_for_meter w m l (values r))) = []) as ->.
  { by induction (sensors_for_meter w m l (values r)). }
  simpl. rewrite Nat.add_0_r. f_equal.
  apply imap_ext. intros i x _. simpl. f_equal. lia.
Qed.

Lemma stored_setup_events w meters : forall l rs i m,
  length rs = length meters -> meters !! i = Some m ->
  In (CoordinatorStored (get_meter_id m) (l + i))
     (setup_events w l meters rs).
Proof.
  induction meters as [|m' meters IH]; intros l [|r rs] i m Hlen Hm;
    try done.
  rewrite setup_events_cons.
  apply in_app_iff. destruct i as [|i]; simpl in *.
  - injection Hm as ->. left. rewrite Nat.add_0_r. unfold meter_events.
    simpl. tauto.
  - right. rewrite Nat.add_succ_r. apply (IH (S l)); [lia|done].
Qed.

(** ** The dict [data.coordinators] *)

Lemma setup_stored_other meters : forall l d id,
  ~ In id (map get_meter_id meters) ->
  setup_stored l meters d !! id = d !! id.
Proof.
  induction meters as [|m meters IH]; intros l d id Hid; simpl in *;
    [done|].
  rewrite IH by tauto. apply lookup_insert_ne. tauto.
Qed.

Lemma setup_stored_lookup meters : forall l d i m,
  NoDup (map get_meter_id meters) -> meters !! i = Some m ->
  setup_stored l meters d !! get_meter_id m = Some (l + i).
Proof.
  induction meters as [|m' meters IH]; intros l d i m Hnd Hm;
    simpl in *; [done|].
  apply NoDup_cons in Hnd as [Hm' Hnd].
  destruct i as [|i]; simpl in *.
  - injection Hm as ->.
    rewrite setup_stored_other by (by rewrite <- list_elem_of_In).
    by rewrite lookup_insert_eq, Nat.add_0_r.
  - rewrite Nat.add_succ_r. by apply (IH (S l)).
Qed.

(** ** The coordinator objects *)

Lemma setup_heap_old (h : list DataUpdateCoordinator) entry interval
    meters rs l :
  l < length h ->
  (h ++ zip_with (refreshed_coordinator entry interval) meters rs) !! l
    = h !! l.
Proof. intros Hl. by apply lookup_app_l. Qed.

Lemma setup_heap_new (h : list DataUpdateCoordinator) entry interval
    meters rs i m r :
  meters !! i = Some m -> rs !! i = Some r ->
  (h ++ zip_with (refreshed_coordinator entry interval) meters rs)
    !! (length h + i)
    = Some (refreshed_coordinator entry interval m r).
Proof.
  intros Hm Hr. rewrite lookup_app_r by lia.
  replace (length h + i - length h) with i by lia.
  rewrite lookup_zip_with, Hm. simpl. by rewrite Hr.
Qed.

Lemma setup_heap_length (h : list DataUpdateCoordinator) entry interval
    meters rs :
  length rs = length meters ->
  length (h ++ zip_with (refreshed_coordinator entry interval) meters rs)
    = length h + length meters.
Proof.
  intros Hlen. rewrite length_app, length_zip_with. lia.
Qed.
(** ** Polling *)

Lemma table_frame w w' t : tables w' = tables w -> table t w' = table t w.
Proof. intros [= Hg He]. by destruct t. Qed.

Lemma async_refresh_heap l w :
  exists f, heap (async_refresh l w).2 = alter f l (heap w)
            /\ forall c, is_Some (data c) -> is_Some (data (f c)).
Proof.
  unfold async_refresh, bind, deref.
  destruct (heap w !! l) as [c|] eqn:Hc.
  - unfold try_except, bind. rewrite async_update_data_eq. simpl.
    destruct (get_last_reading (cloud w) (get_meter_id (update_meter c)))
      as [[r|err] a]; simpl.
    + exists (fun c => set_last_update_success true (set_data r c)).
      split; [done|]. intros c' _. by eexists.
    + exists (set_last_update_success false). by split.
  - exists id. simpl. split; [|done]. by rewrite list_alter_id.
Qed.

Lemma async_refresh_heap_length l w :
  length (heap (async_refresh l w).2) = length (heap w).
Proof.
  destruct (async_refresh_heap l w) as (f & -> & _). apply length_alter.
Qed.

(** A poll that fetches a reading makes it the coordinator's [data]. *)
Lemma async_refresh_Ok l w c r a :
  heap w !! l = Some c ->
  get_last_reading (cloud w) (get_meter_id (update_meter c))
    = (Fetched r, a) ->
  heap (async_refresh l w).2 !! l
    = Some (set_last_update_success true (set_data r c)).
Proof.
  intros Hc Hget. unfold async_refresh, bind, deref. rewrite Hc.
  unfold try_except, bind. rewrite async_update_data_eq. simpl.
  rewrite Hget. simpl. rewrite list_lookup_alter_eq, Hc. done.
Qed.

(** ** Setup only adds coordinators *)

Lemma setup_meter_heap entry interval es meter w :
  exists c, heap (setup_meter entry interval es meter w).2 = heap w ++ [c].
Proof.
  destruct (get_last_reading (cloud w) (get_meter_id meter))
    as [[r|err] a] eqn:Hget.
  - rewrite (setup_meter_Ok _ _ _ _ _ _ _ Hget). by eexists.
  - rewrite (setup_meter_Raise _ _ _ _ _ _ _ Hget). by eexists.
Qed.

Lemma meter_loop_heap entry interval meters : forall es w,
  exists h',
    heap (for_each (setup_meter entry interval) es meters w).2
      = heap w ++ h'
    /\ length h' <= length meters.
Proof.
  induction meters as [|m meters IH]; intros es w; simpl.
  - exists []. by rewrite app_nil_r.
  - unfold bind.
    destruct (setup_meter_heap entry interval es m w) as [c Hc].
    destruct (setup_meter entry interval es m w) as [[es'|e|] w1];
      simpl in *.
    + destruct (IH es' w1) as (h' & Hh' & Hlen). exists (c :: h').
      rewrite Hh', Hc, <- app_assoc. simpl. split; [done|lia].
    + exists [c]. simpl. split; [done|lia].
    + exists [c]. simpl. split; [done|lia].
Qed.

Lemma async_setup_entry_heap entry w :
  exists h',
    heap (async_setup_entry entry w).2 = heap w ++ h'
    /\ length h' <= length (data_meters w).
Proof.
  unfold async_setup_entry, bind, gets.
  destruct (meter_loop_heap entry (min_time_between_updates entry)
              (data_meters w) [] w) as (h' & Hh' & Hlen).
  destruct (for_each _ _ _ w) as [[es|e|] w1]; simpl in *; by exists h'.
Qed.

Lemma async_setup_entry_added entry w :
  added (async_setup_entry entry w).2 =
    match first_fetches (cloud w) (data_meters w) with
    | Some (rs, _) =>
        added w ++
        [(setup_entities w (length (heap w)) (data_meters w) rs, false)]
    | None => added w
    end.
Proof.
  destruct (first_fetches (cloud w) (data_meters w)) as [[rs a]|] eqn:Hf.
  - by rewrite (async_setup_entry_Ok _ _ _ _ Hf).
  - unfold async_setup_entry, bind, gets.
    destruct (meter_loop_Raise entry (min_time_between_updates entry)
                _ w [] Hf) as [err Herr].
    pose proof (meter_loop_static _ added_static entry
                  (min_time_between_updates entry) [] (data_meters w) w)
      as Hadded.
    destruct (for_each _ _ _ w) as [[es|e|] w1]; simpl in *; done.
Qed.

(** ** The references of the entities lead somewhere *)

Lemma entity_ok_frame w w' e :
  (forall c r, heap w !! coordinator e = Some c -> data c = Some r ->
     exists c' r', heap w' !! coordinator e = Some c' /\ data c' = Some r') ->
  tables w' = tables w ->
  entity_ok w e -> entity_ok w' e.
Proof.
  intros Hheap Ht [(c & r & Hc & Hd) (d & Href)]. split.
  - eauto.
  - exists d. by rewrite (table_frame _ _ _ Ht).
Qed.

Lemma setup_entities_ok entry w rs a e :
  first_fetches (cloud w) (data_meters w) = Some (rs, a) ->
  In e (setup_entities w (length (heap w)) (data_meters w) rs) ->
  entity_ok (async_setup_entry entry w).2 e.
Proof.
  intros Hf He. rewrite (async_setup_entry_Ok _ _ _ _ Hf). simpl.
  apply in_setup_entities in He as (i & m & r & Hm & Hr & He).
  apply in_sensors_for_meter in He
    as (t & j & d & k & Ht & Hd & _ & _ & ->).
  split; simpl.
  - exists (refreshed_coordinator entry (min_time_between_updates entry)
              m r), r.
    split; [|done]. by apply setup_heap_new.
  - exists d. by destruct t.
Qed.

Lemma step_entities_ok w w' :
  step w w' ->
  (forall e, In e (entities w) -> entity_ok w e) ->
  forall e, In e (entities w') -> entity_ok w' e.
Proof.
  intros Hstep Hok. destruct Hstep as [entry w|l w|e0 w].
  - intros e. unfold entities. rewrite async_setup_entry_added.
    assert (forall e, In e (entities w) ->
              entity_ok (async_setup_entry entry w).2 e) as Hold.
    { intros e' He'. apply (entity_ok_frame w); [| |by apply Hok].
      - intros c r Hc Hd.
        destruct (async_setup_entry_heap entry w) as (h' & -> & _).
        exists c, r. split; [|done]. by apply lookup_app_l_Some.
      - apply async_setup_entry_tables. }
    destruct (first_fetches (cloud w) (data_meters w)) as [[rs a]|] eqn:Hf;
      [|by apply Hold].
    rewrite map_app, concat_app. simpl. rewrite app_nil_r.
    intros [He|He]%in_app_iff; [by apply Hold|].
    by eapply setup_entities_ok.
  - intros e He.
    assert (In e (entities w)) as He'.
    { unfold entities in *.
      by rewrite (async_refresh_static _ added_static l w) in He. }
    apply (entity_ok_frame w); [| |by apply Hok].
    + intros c r Hc Hd.
      destruct (async_refresh_heap l w) as (f & -> & Hf).
      destruct (decide (coordinator e = l)) as [<-|Hne].
      * destruct (Hf c) as [r' Hr']; [by eexists|].
        exists (f c), r'. split; [|done].
        by rewrite list_lookup_alter_eq, Hc.
      * exists c, r. split; [|done].
        by rewrite list_lookup_alter_ne.
    + apply async_refresh_static, tables_static.
  - by rewrite native_value_pure.
Qed.

Lemma reachable_entities_ok w :
  reachable w -> forall e, In e (entities w) -> entity_ok w e.
Proof.
  intros (a & meters & Hrtc). revert w Hrtc.
  apply (rtc_ind_r (fun w => forall e, In e (entities w) -> entity_ok w e));
    [by intros e He|].
  intros w1 w2 _ Hstep IH. by apply (step_entities_ok w1).
Qed.

(** ** The state of a sensor *)

Lemma py_truediv_nonzero raw scale :
  scale <> 0%Z -> int_to_float scale <> Stuck ->
  ~ raises OverflowError (int_to_float scale) ->
  match py_truediv raw scale with
  | Ok (PyFloat _) => True
  | Ok (PyInt _) => False
  | Raise ex => exn_cls ex = OverflowError
  | Stuck => False
  end.
Proof.
  intros Hs Hstuck Hover. apply Z.eqb_neq in Hs.
  destruct raw as [a|x]; simpl.
  - unfold int_true_divide. rewrite Hs.
    destruct a; [done| |];
      by destruct (SFdiv _ _ _ _).
  - unfold float_true_divide. rewrite Hs.
    unfold int_to_float in *.
    by destruct (binary_normalize prec emax scale 0 false).
Qed.

(** [native_value], case by case. *)
Lemma native_value_cases w self :
  native_value self w =
    (match heap w !! coordinator self with
     | None => Stuck
     | Some c =>
         match data c with
         | None =>
             Raise (Exn AttributeError
                      "'NoneType' object has no attribute 'values'" None)
         | Some r =>
             match values r !! data_key self with
             | None =>
                 Raise (Exn KeyError ("'" +:+ data_key self +:+ "'") None)
             | Some raw =>
                 match table (entity_description self).1 w
                         !! (entity_description self).2 with
                 | None => Stuck
                 | Some d =>
                     match py_truediv raw (scale d) with
                     | Ok quotient => py_float quotient
                     | Raise ex => Raise ex
                     | Stuck => Stuck
                     end
                 end
             end
         end
     end, w).
Proof.
  unfold native_value, coordinator_data_values, deref_description, deref,
    bind, lift, ret, raise.
  destruct (heap w !! coordinator self) as [c|]; [|done].
  destruct (data c) as [r|]; [|done].
  destruct (values r !! data_key self) as [raw|]; [|done].
  destruct (table _ w !! _) as [d|]; [|done].
  by destruct (py_truediv raw (scale d)).
Qed.

Lemma table_scales :
  Forall (fun d => (0 < scale d)%Z
               /\ scale d = if bool_decide (device_class d = ENERGY)
                            then 10000000000%Z else DiscovergyMixin_scale)
    (GAS_SENSORS ++ ELECTRICITY_SENSORS).
Proof.
  repeat (apply Forall_cons; split; [by vm_compute|]). apply Forall_nil_2.
Qed.

Lemma native_value_key_present w self c r d :
  reachable w ->
  heap w !! coordinator self = Some c ->
  data c = Some r ->
  is_Some (values r !! data_key self) ->
  table (entity_description self).1 w !! (entity_description self).2
    = Some d ->
  match (native_value self w).1 with
  | Ok _ => True
  | Raise ex => exn_cls ex = OverflowError
  | Stuck => False
  end.
Proof.
  intros Hreach Hc Hd [raw Hraw] Href.
  assert (In d (GAS_SENSORS ++ ELECTRICITY_SENSORS)) as Hin.
  { apply reachable_tables in Hreach as [= Hg He].
    apply in_app_iff.
    destruct (entity_description self) as [[|] j]; simpl in Href;
      rewrite ?Hg, ?He in Href;
      apply list_elem_of_lookup_2, list_elem_of_In in Href; tauto. }
  rewrite native_value_cases, Hc, Hd, Hraw, Href. simpl.
  assert (match py_truediv raw (scale d) with
          | Ok (PyFloat _) => True
          | Ok (PyInt _) => False
          | Raise ex => exn_cls ex = OverflowError
          | Stuck => False
          end) as Hdiv.
  { pose proof table_scales as Hscales.
    rewrite Forall_forall in Hscales.
    apply list_elem_of_In, Hscales in Hin as [Hpos Hval].
    apply py_truediv_nonzero; [lia| |];
      rewrite Hval; destruct (bool_decide _); by vm_compute. }
  by destruct (py_truediv raw (scale d)) as [[n|x]|ex|].
Qed.

(** C1.  For every sensor entity, [native_value] is the raw value that
    the coordinator's current reading stores under the entity's
    [data_key], divided by the [scale] of the entity's description, as a
    float; the world is left as it was.

    Every entity that a run of the system has handed to the host refers
    to a coordinator that holds a reading and to a description.  For
    such an entity:
    - with no value under [data_key] the result is [KeyError], and with
      a scale of zero [ZeroDivisionError];
    - for a raw int [n] the result is the exact quotient [n / scale]
      rounded once to binary64, and [OverflowError] where that rounding
      is an infinity, that is for a quotient of magnitude
      2^1024 - 2^970 or more;
    - for a raw float [x] the scale is converted to a float [y], its
      rounding, with [OverflowError] where that is an infinity; the
      result is [x / y] as IEEE 754 has it, for a finite [x] the exact
      quotient of the two floats rounded once to binary64. *)
Theorem native_value_spec w self :
  (reachable w -> In self (entities w) -> entity_ok w self)
  /\ forall c r d,
       heap w !! coordinator self = Some c ->
       data c = Some r ->
       table (entity_description self).1 w !! (entity_description self).2
         = Some d ->
       (native_value self w).2 = w
       /\ match values r !! data_key self with
          | None => raises KeyError (native_value self w).1
          | Some raw =>
              if decide (scale d = 0%Z)
              then raises ZeroDivisionError (native_value self w).1
              else
                match raw with
                | PyInt n =>
                    match (native_value self w).1 with
                    | Ok x =>
                        is_number x = true
                        /\ binary64_round
                             (xorb (n <? 0)%Z (scale d <? 0)%Z)
                             (Z.abs n) (Z.abs (scale d)) x
                    | Raise ex =>
                        exn_cls ex = OverflowError
                        /\ ((2 ^ 54 - 1) * 2 ^ 970 * Z.abs (scale d)
                            <= Z.abs n)%Z
                    | Stuck => False
                    end
                | PyFloat x =>
                    exists y,
                      binary64_round (scale d <? 0)%Z
                        (Z.abs (scale d)) 1 y
                      /\ match y with
                         | S754_finite sy my ey =>
                             exists z,
                               (native_value self w).1 = Ok z
                               /\ float_quotient x sy my ey z
                         | S754_infinity _ =>
                             raises OverflowError (native_value self w).1
                         | S754_zero _ | S754_nan => False
                         end
                end
          end.
Proof.
  split; [intros Hreach Hin; by apply reachable_entities_ok|].
  intros c r d Hc Hd Href.
  rewrite native_value_cases, Hc, Hd, Href. simpl.
  split; [done|].
  destruct (values r !! data_key self) as [raw|]; [|done].
  destruct (decide (scale d = 0%Z)) as [Hz|Hnz].
  { rewrite Hz. by destruct raw as [n|[]]. }
  destruct raw as [n|x]; simpl.
  - pose proof (int_true_divide_round n (scale d) Hnz) as Hdiv.
    by destruct (int_true_divide n (scale d)).
  - destruct (float_true_divide_round x (scale d) Hnz) as (y & Hy & Hq).
    exists y. split; [done|].
    destruct y as [sy|sy| |sy my ey]; try done.
    + by destruct (float_true_divide x (scale d)).
    + destruct Hq as (z & -> & Hq). by exists z.
Qed.

(** The state follows the polls: once a poll has fetched a reading, the
    value of every sensor on that coordinator is computed from it. *)
Lemma native_value_follows_refresh w self c r' a raw d :
  heap w !! coordinator self = Some c ->
  get_last_reading (cloud w) (get_meter_id (update_meter c))
    = (Fetched r', a) ->
  values r' !! data_key self = Some raw ->
  table (entity_description self).1 w !! (entity_description self).2
    = Some d ->
  (native_value self (async_refresh (coordinator self) w).2).1 =
    match py_truediv raw (scale d) with
    | Ok quotient => py_float quotient
    | Raise ex => Raise ex
    | Stuck => Stuck
    end.
Proof.
  intros Hc Hget Hraw Href.
  rewrite native_value_cases.
  rewrite (async_refresh_Ok _ _ _ _ _ Hc Hget). simpl. rewrite Hraw.
  rewrite (table_frame w)
    by apply async_refresh_static, tables_static.
  by rewrite Href.
Qed.

(** C4.  The update function hands a fetched reading on unchanged, and
    turns every failure of the vendor call into one of two host
    exceptions: [ConfigEntryAuthFailed] for [AccessTokenExpired],
    [UpdateFailed] for [HTTPError] and for any other exception, with the
    vendor's exception as the cause. *)
Theorem async_update_data_channels meter w :
  match (get_last_reading (cloud w) (get_meter_id meter)).1 with
  | Fetched r => (async_update_data meter w).1 = Ok r
  | Failed err =>
      exists msg,
        (async_update_data meter w).1 =
          Raise (Exn (if bool_decide (exn_cls err = AccessTokenExpired)
                      then ConfigEntryAuthFailed
                      else UpdateFailed)
                   msg (Some err))
  end.
Proof.
  rewrite async_update_data_eq. simpl.
  destruct (get_last_reading (cloud w) (get_meter_id meter))
    as [[r|err] a]; simpl; [done|].
  unfold host_error. destruct (exn_cls err); simpl; by eexists.
Qed.

(** C9.  Every description of the two tables has a positive scale, 1000
    by default and 10000000000 for the energy sensors; so for an entity
    whose [data_key] is in the coordinator's current reading,
    [native_value] raises neither [ZeroDivisionError] nor [KeyError]. *)
Theorem native_value_never_divides_by_zero :
  DiscovergyMixin_scale = 1000%Z
  /\ Forall (fun d => (0 < scale d)%Z
               /\ scale d = if bool_decide (device_class d = ENERGY)
                            then 10000000000%Z else DiscovergyMixin_scale)
       (GAS_SENSORS ++ ELECTRICITY_SENSORS)
  /\ forall w self c r d,
       reachable w ->
       heap w !! coordinator self = Some c ->
       data c = Some r ->
       is_Some (values r !! data_key self) ->
       table (entity_description self).1 w !! (entity_description self).2
         = Some d ->
       ~ raises ZeroDivisionError (native_value self w).1
       /\ ~ raises KeyError (native_value self w).1
       /\ match (native_value self w).1 with
          | Ok _ => True
          | Raise ex => exn_cls ex = OverflowError
          | Stuck => False
          end.
Proof.
  split; [done|]. split; [apply table_scales|].
  intros w self c r d Hreach Hc Hd Hin Href.
  pose proof (native_value_key_present w self c r d Hreach Hc Hd Hin Href)
    as Hres.
  destruct ((native_value self w).1) as [x|ex|]; simpl; [tauto| |done].
  rewrite Hres. by split_and!.
Qed.

(** ** The entities of a setup *)

Lemma select_sensors_Some m t :
  select_sensors m = Some t <->
  (measurement_type m = "ELECTRICITY" /\ t = ElectricityTable)
  \/ (measurement_type m = "GAS" /\ t = GasTable).
Proof.
  unfold select_sensors. repeat case_bool_decide; split;
    try (intros [= <-]); try (intros [[? ->]|[? ->]]);
    try done; try tauto; congruence.
Qed.

Lemma select_sensors_None m :
  select_sensors m = None <->
  measurement_type m <> "ELECTRICITY" /\ measurement_type m <> "GAS".
Proof.
  unfold select_sensors. repeat case_bool_decide; split;
    try done; tauto.
Qed.

Lemma in_setup_entities_inv w base meters rs e :
  In e (setup_entities w base meters rs) ->
  exists i m r t j d k,
    meters !! i = Some m /\ rs !! i = Some r
    /\ select_sensors m = Some t /\ table t w !! j = Some d
    /\ In k (key d :: alternative_keys d)
    /\ is_Some (values r !! k)
    /\ e = DiscovergySensor_attrs k (t, j) d m (base + i).
Proof.
  intros (i & m & r & Hm & Hr & He)%in_setup_entities.
  apply in_sensors_for_meter in He
    as (t & j & d & k & Ht & Hd & Hk & Hin & ->).
  exists i, m, r, t, j, d, k.
  apply bool_decide_eq_true in Hin. by repeat split.
Qed.

(** C2.  A sensor entity is created for a meter and a description only
    if the description's key or one of its alternative keys is in the
    values of the meter's first fetched reading; a description none of
    whose keys is there gets no entity, and the routine still ends
    without an error. *)
Theorem setup_requires_key_in_first_reading entry w rs a :
  first_fetches (cloud w) (data_meters w) = Some (rs, a) ->
  (async_setup_entry entry w).1 = Ok tt
  /\ exists es,
       added (async_setup_entry entry w).2 = added w ++ [(es, false)]
       /\ (forall e, In e es ->
             exists i m r c d,
               data_meters w !! i = Some m
               /\ rs !! i = Some r
               /\ coordinator e = length (heap w) + i
               /\ heap (async_setup_entry entry w).2 !! coordinator e
                    = Some c
               /\ data c = Some r
               /\ table (entity_description e).1 w
                    !! (entity_description e).2 = Some d
               /\ In (data_key e) (key d :: alternative_keys d)
               /\ is_Some (values r !! data_key e))
       /\ (forall i m r t j d,
             data_meters w !! i = Some m ->
             rs !! i = Some r ->
             table t w !! j = Some d ->
             (forall k, In k (key d :: alternative_keys d) ->
                        values r !! k = None) ->
             forall e, In e es ->
               ~ (coordinator e = length (heap w) + i
                  /\ entity_description e = (t, j))).
Proof.
  intros Hf. rewrite (async_setup_entry_Ok _ _ _ _ Hf). simpl.
  split; [done|]. eexists. split; [done|]. split.
  - intros e (i & m & r & t & j & d & k & Hm & Hr & Ht & Hd & Hk & Hin & ->)
      %in_setup_entities_inv.
    exists i, m, r,
      (refreshed_coordinator entry (min_time_between_updates entry) m r), d.
    simpl. repeat split; try done.
    by apply setup_heap_new.
  - intros i m r t j d Hm Hr Hd Hnone e
      (i' & m' & r' & t' & j' & d' & k & Hm' & Hr' & Ht' & Hd' & Hk & Hin
         & ->)%in_setup_entities_inv.
    simpl. intros [Hi [= <- <-]].
    assert (i' = i) as -> by lia.
    rewrite Hr in Hr'. injection Hr' as <-.
    rewrite Hd in Hd'. injection Hd' as <-.
    rewrite (Hnone k Hk) in Hin. by destruct Hin.
Qed.

(** C6.  The table a meter's entities come from is chosen by its
    measurement type alone: a meter of type ["ELECTRICITY"] gets
    [ELECTRICITY_SENSORS], one of type ["GAS"] gets [GAS_SENSORS], and
    two meters of one type get the same table.  The entities a setup
    builds on the coordinator of such a meter are exactly those of the
    descriptions of its table and of the keys of these descriptions
    that are in the meter's first reading: every entity of the setup
    comes from the table of its meter, on a key that is in the reading,
    and every description of the table gets an entity for each of its
    keys that is in the reading. *)
Theorem setup_table_by_measurement_type entry w rs a :
  reachable w ->
  first_fetches (cloud w) (data_meters w) = Some (rs, a) ->
  (forall m, measurement_type m = "ELECTRICITY" ->
             select_sensors m = Some ElectricityTable)
  /\ (forall m, measurement_type m = "GAS" ->
                select_sensors m = Some GasTable)
  /\ (forall m1 m2, measurement_type m1 = measurement_type m2 ->
                    select_sensors m1 = select_sensors m2)
  /\ exists es,
       added (async_setup_entry entry w).2 = added w ++ [(es, false)]
       /\ (forall e, In e es ->
             exists i m r j d,
               data_meters w !! i = Some m
               /\ rs !! i = Some r
               /\ coordinator e = length (heap w) + i
               /\ ((measurement_type m = "ELECTRICITY"
                    /\ entity_description e = (ElectricityTable, j)
                    /\ ELECTRICITY_SENSORS !! j = Some d)
                   \/ (measurement_type m = "GAS"
                       /\ entity_description e = (GasTable, j)
                       /\ GAS_SENSORS !! j = Some d))
               /\ In (data_key e) (key d :: alternative_keys d)
               /\ is_Some (values r !! data_key e))
       /\ (forall i m r t ds,
             data_meters w !! i = Some m ->
             rs !! i = Some r ->
             (measurement_type m = "ELECTRICITY"
              /\ t = ElectricityTable /\ ds = ELECTRICITY_SENSORS)
             \/ (measurement_type m = "GAS"
                 /\ t = GasTable /\ ds = GAS_SENSORS) ->
             forall e,
               In e es /\ coordinator e = length (heap w) + i
               <-> exists j d k,
                     ds !! j = Some d
                     /\ In k (key d :: alternative_keys d)
                     /\ is_Some (values r !! k)
                     /\ e = DiscovergySensor_attrs k (t, j) d m
                              (length (heap w) + i)).
Proof.
  intros Hreach Hf.
  pose proof (reachable_tables _ Hreach) as Htab.
  injection Htab as Hg He.
  split. { intros m Hmt. apply select_sensors_Some. by left. }
  split. { intros m Hmt. apply select_sensors_Some. by right. }
  split. { intros m1 m2 Hmt. unfold select_sensors. by rewrite Hmt. }
  rewrite (async_setup_entry_Ok _ _ _ _ Hf). simpl.
  eexists. split; [done|]. split.
  - intros e
      (i & m & r & t & j & d & k & Hm & Hr & Ht & Hd & Hk & Hin & ->)
        %in_setup_entities_inv.
    exists i, m, r, j, d. simpl. repeat split; try done.
    apply select_sensors_Some in Ht as [[Hmt ->]|[Hmt ->]]; simpl in Hd.
    + left. by rewrite He in Hd.
    + right. by rewrite Hg in Hd.
  - intros i m r t ds Hm Hr Hsel e.
    assert (select_sensors m = Some t /\ table t w = ds) as [Ht Hds].
    { destruct Hsel as [(Hmt & -> & ->)|(Hmt & -> & ->)];
        (split; [apply select_sensors_Some; tauto|done]). }
    split.
    + intros
        [(i' & m' & r' & t' & j & d & k & Hm' & Hr' & Ht' & Hd & Hk & Hin
            & ->)%in_setup_entities_inv Hco].
      simpl in Hco. assert (i' = i) as -> by lia.
      rewrite Hm in Hm'. injection Hm' as <-.
      rewrite Hr in Hr'. injection Hr' as <-.
      rewrite Ht in Ht'. injection Ht' as <-.
      exists j, d, k. by rewrite <- Hds.
    + intros (j & d & k & Hd & Hk & Hin & ->). split; [|done].
      apply in_setup_entities. exists i, m, r.
      split; [done|]. split; [done|].
      apply in_sensors_for_meter. exists t, j, d, k.
      rewrite Hds. split_and!; try done.
      by apply bool_decide_eq_true.
Qed.

(** C8.  The unique id of a sensor is the meter's full serial number, a
    hyphen and the primary key of the description, whichever key the
    entity was matched on; two entities built from one description for
    one meter therefore have the same unique id. *)
Theorem unique_id_uses_primary_key :
  (forall k ref d meter l w,
     exists self,
       (DiscovergySensor_init k ref d meter l w).1 = Ok self
       /\ data_key self = k
       /\ unique_id self = full_serial_number meter +:+ "-" +:+ key d)
  /\ (forall k1 k2 ref1 ref2 d meter l1 l2 w1 w2 self1 self2,
        (DiscovergySensor_init k1 ref1 d meter l1 w1).1 = Ok self1 ->
        (DiscovergySensor_init k2 ref2 d meter l2 w2).1 = Ok self2 ->
        unique_id self1 = unique_id self2)
  /\ (forall entry w rs a,
        first_fetches (cloud w) (data_meters w) = Some (rs, a) ->
        exists es,
          added (async_setup_entry entry w).2 = added w ++ [(es, false)]
          /\ forall e, In e es ->
               exists i m d,
                 data_meters w !! i = Some m
                 /\ coordinator e = length (heap w) + i
                 /\ table (entity_description e).1 w
                      !! (entity_description e).2 = Some d
                 /\ In (data_key e) (key d :: alternative_keys d)
                 /\ unique_id e
                      = full_serial_number m +:+ "-" +:+ key d).
Proof.
  split; [|split].
  - intros k ref d meter l w. by eexists.
  - intros k1 k2 ref1 ref2 d meter l1 l2 w1 w2 self1 self2.
    by intros [= <-] [= <-].
  - intros entry w rs a Hf. rewrite (async_setup_entry_Ok _ _ _ _ Hf).
    simpl. eexists. split; [done|].
    intros e (i & m & r & t & j & d & k & Hm & Hr & Ht & Hd & Hk & Hin & ->)
      %in_setup_entities_inv.
    by exists i, m, d.
Qed.

(** C10.  A meter whose measurement type is neither ["ELECTRICITY"] nor
    ["GAS"] still gets a coordinator that is refreshed and stored, but no
    sensor entity, and the routine ends without an error. *)
Theorem setup_unknown_measurement_type entry w rs a :
  first_fetches (cloud w) (data_meters w) = Some (rs, a) ->
  (async_setup_entry entry w).1 = Ok tt
  /\ exists es,
       added (async_setup_entry entry w).2 = added w ++ [(es, false)]
       /\ forall i m,
            data_meters w !! i = Some m ->
            measurement_type m <> "ELECTRICITY" ->
            measurement_type m <> "GAS" ->
            (exists r,
               rs !! i = Some r
               /\ heap (async_setup_entry entry w).2 !! (length (heap w) + i)
                  = Some (refreshed_coordinator entry
                            (min_time_between_updates entry) m r))
            /\ In (CoordinatorStored (get_meter_id m) (length (heap w) + i))
                 (drop (length (trace w))
                    (trace (async_setup_entry entry w).2))
            /\ (NoDup (map get_meter_id (data_meters w)) ->
                data_coordinators (async_setup_entry entry w).2
                  !! get_meter_id m = Some (length (heap w) + i))
            /\ forall e, In e es -> coordinator e <> length (heap w) + i.
Proof.
  intros Hf. rewrite (async_setup_entry_Ok _ _ _ _ Hf). simpl.
  pose proof (first_fetches_length _ _ _ _ Hf) as Hlen.
  split; [done|]. eexists. split; [done|].
  intros i m Hm Hne Hng. repeat split.
  - destruct (lookup_lt_is_Some_2 rs i) as [r Hr].
    { rewrite Hlen. by eapply lookup_lt_Some. }
    exists r. split; [done|]. by apply setup_heap_new.
  - rewrite drop_app_length. apply in_app_iff. left.
    by apply stored_setup_events.
  - intros Hnd. by apply setup_stored_lookup.
  - intros e
      (i' & m' & r' & t' & j' & d' & k & Hm' & Hr' & Ht' & Hd' & Hk & Hin
         & ->)%in_setup_entities_inv.
    simpl. intros Hi. assert (i' = i) as -> by lia.
    rewrite Hm in Hm'. injection Hm' as <-.
    assert (select_sensors m = None) as Hnone
      by by apply select_sensors_None.
    congruence.
Qed.

(** ** The coordinators of a setup *)

Lemma async_setup_entry_Ok_iff entry w :
  (async_setup_entry entry w).1 = Ok tt
  <-> is_Some (first_fetches (cloud w) (data_meters w)).
Proof.
  destruct (first_fetches (cloud w) (data_meters w)) as [[rs a]|] eqn:Hf.
  - rewrite (async_setup_entry_Ok _ _ _ _ Hf). by split.
  - destruct (async_setup_entry_Raise entry w Hf) as [err ->].
    split; [done|]. by intros [? ?].
Qed.

(** C5.  The setup creates one coordinator per meter of the list, each
    at an address of its own and for that meter; it refreshes the
    coordinator before it builds an entity on it and stores it in
    [data.coordinators] under the meter's id; the entities of a meter
    use the coordinator of that meter; polling and reading a sensor
    create no coordinator.  (A setup that is left through a failed first
    fetch has created at most one coordinator per meter.) *)
Theorem setup_one_coordinator_per_meter entry w :
  (exists h',
     heap (async_setup_entry entry w).2 = heap w ++ h'
     /\ length h' <= length (data_meters w))
  /\ (forall rs a,
        first_fetches (cloud w) (data_meters w) = Some (rs, a) ->
        (async_setup_entry entry w).1 = Ok tt
        /\ length (heap (async_setup_entry entry w).2)
           = length (heap w) + length (data_meters w)
        /\ omap created
             (drop (length (trace w))
                (trace (async_setup_entry entry w).2))
           = imap (fun i m => (length (heap w) + i, m)) (data_meters w)
        /\ (forall i m,
              data_meters w !! i = Some m ->
              (exists r,
                 rs !! i = Some r
                 /\ heap (async_setup_entry entry w).2
                      !! (length (heap w) + i)
                    = Some (refreshed_coordinator entry
                              (min_time_between_updates entry) m r))
              /\ In (CoordinatorStored (get_meter_id m)
                       (length (heap w) + i))
                   (drop (length (trace w))
                      (trace (async_setup_entry entry w).2))
              /\ (NoDup (map get_meter_id (data_meters w)) ->
                  data_coordinators (async_setup_entry entry w).2
                    !! get_meter_id m = Some (length (heap w) + i)))
        /\ refreshed_before_built
             (drop (length (trace w))
                (trace (async_setup_entry entry w).2))
        /\ (exists es,
              added (async_setup_entry entry w).2
                = added w ++ [(es, false)]
              /\ forall e, In e es ->
                   exists i m c,
                     data_meters w !! i = Some m
                     /\ coordinator e = length (heap w) + i
                     /\ heap (async_setup_entry entry w).2
                          !! coordinator e = Some c
                     /\ update_meter c = m
                     /\ identifiers (device_info e)
                        = [(DOMAIN, get_meter_id m)]))
  /\ (forall l w0,
        length (heap (async_refresh l w0).2) = length (heap w0))
  /\ (forall self w0, (native_value self w0).2 = w0).
Proof.
  split; [apply async_setup_entry_heap|].
  split; [|split; [apply async_refresh_heap_length|apply native_value_pure]].
  intros rs a Hf. rewrite (async_setup_entry_Ok _ _ _ _ Hf). simpl.
  pose proof (first_fetches_length _ _ _ _ Hf) as Hlen.
  rewrite drop_app_length.
  split; [done|].
  split; [by apply setup_heap_length|].
  split.
  { rewrite omap_app. simpl. rewrite app_nil_r.
    by apply created_setup_events. }
  split.
  { intros i m Hm. repeat split.
    - destruct (lookup_lt_is_Some_2 rs i) as [r Hr].
      { rewrite Hlen. by eapply lookup_lt_Some. }
      exists r. split; [done|]. by apply setup_heap_new.
    - apply in_app_iff. left. by apply stored_setup_events.
    - intros Hnd. by apply setup_stored_lookup. }
  split.
  { apply refreshed_before_built_app; [apply setup_events_order|].
    by intros [|p] e Hp. }
  eexists. split; [done|].
  intros e (i & m & r & t & j & d & k & Hm & Hr & Ht & Hd & Hk & Hin & ->)
    %in_setup_entities_inv.
  exists i, m,
    (refreshed_coordinator entry (min_time_between_updates entry) m r).
  simpl. repeat split; try done. by apply setup_heap_new.
Qed.

(** ** The descriptions are shared and never written *)

(** C7.  The description tables are built at load time and nothing
    writes to them afterwards: setting up an entry, creating a
    coordinator, building an entity, polling and reading a sensor leave
    every description as it is, so that in every reachable world the
    tables are the ones the module built; and the entities that refer to
    one description read the same values. *)
Theorem descriptions_never_mutated :
  (forall entry, preserves tables (async_setup_entry entry))
  /\ (forall meter interval,
        preserves tables (get_coordinator_for_meter meter interval))
  /\ (forall k ref d meter l,
        preserves tables (DiscovergySensor_init k ref d meter l))
  /\ (forall l, preserves tables (async_refresh l))
  /\ (forall self, preserves tables (native_value self))
  /\ (forall w, reachable w ->
        tables w = (GAS_SENSORS, ELECTRICITY_SENSORS))
  /\ (forall w e, reachable w -> In e (entities w) ->
        exists d,
          deref_description (entity_description e) w = (Ok d, w)
          /\ match (entity_description e).1 with
             | GasTable => GAS_SENSORS
             | ElectricityTable => ELECTRICITY_SENSORS
             end !! (entity_description e).2 = Some d)
  /\ (forall w e1 e2,
        entity_description e1 = entity_description e2 ->
        deref_description (entity_description e1) w
          = deref_description (entity_description e2) w).
Proof.
  split_and!.
  - apply async_setup_entry_tables.
  - intros. apply get_coordinator_for_meter_static, tables_static.
  - intros. apply DiscovergySensor_init_static, tables_static.
  - intros. apply async_refresh_static, tables_static.
  - intros self w. by rewrite native_value_pure.
  - apply reachable_tables.
  - intros w e Hreach He.
    destruct (reachable_entities_ok w Hreach e He) as [_ [d Hd]].
    exists d. unfold deref_description. rewrite Hd. split; [done|].
    apply reachable_tables in Hreach as [= Hg Hel].
    destruct (entity_description e) as [[|] j]; simpl in *; congruence.
  - intros w e1 e2 Heq. by rewrite Heq.
Qed.

(** X13.  For an entity handed to the host, in any reachable world,
    reading the state never follows a reference to no object and never
    finds a coordinator without data: it yields a float, or it raises
    [KeyError] when a later reading lacks the key, or
    [OverflowError]. *)
Lemma native_value_runs w e :
  reachable w -> In e (entities w) ->
  match (native_value e w).1 with
  | Ok _ => True
  | Raise ex => exn_cls ex = KeyError \/ exn_cls ex = OverflowError
  | Stuck => False
  end.
Proof.
  intros Hreach He.
  destruct (reachable_entities_ok w Hreach e He)
    as [(c & r & Hc & Hd) [d Href]].
  destruct (values r !! data_key e) as [raw|] eqn:Hraw.
  - pose proof (native_value_key_present w e c r d Hreach Hc Hd
                  (mk_is_Some _ _ Hraw) Href) as Hres.
    destruct ((native_value e w).1); [done|by right|done].
  - rewrite native_value_cases, Hc, Hd, Hraw. simpl. by left.
Qed.

(** * Further properties *)

(** ** Every present key gets its entity *)

(** X1.  The converse of the filter: for a meter with a table, every key
    of a description (primary or alternative) that is in the meter's
    first reading gets an entity on the meter's coordinator, with that
    key as [data_key] and a reference to that description. *)
Theorem setup_builds_every_present_key entry w rs a i m r t j d k :
  first_fetches (cloud w) (data_meters w) = Some (rs, a) ->
  data_meters w !! i = Some m ->
  rs !! i = Some r ->
  select_sensors m = Some t ->
  table t w !! j = Some d ->
  In k (keys_of d) ->
  is_Some (values r !! k) ->
  exists es e,
    added (async_setup_entry entry w).2 = added w ++ [(es, false)]
    /\ In e es
    /\ coordinator e = length (heap w) + i
    /\ data_key e = k
    /\ entity_description e = (t, j)
    /\ unique_id e = full_serial_number m +:+ "-" +:+ key d.
Proof.
  intros Hf Hm Hr Ht Hd Hk Hin.
  rewrite (async_setup_entry_Ok _ _ _ _ Hf). simpl.
  eexists. exists (DiscovergySensor_attrs k (t, j) d m (length (heap w) + i)).
  split; [done|]. split; [|done].
  apply in_setup_entities. exists i, m, r. split; [done|]. split; [done|].
  apply in_sensors_for_meter. exists t, j, d, k.
  split; [done|]. split; [done|]. split; [done|]. split; [|done].
  by apply bool_decide_eq_true.
Qed.

(** ** The calls to the cloud *)

Lemma api_called_setup_events w meters : forall l rs,
  length rs = length meters ->
  omap api_called (setup_events w l meters rs) = map get_meter_id meters.
Proof.
  induction meters as [|m meters IH]; intros l [|r rs] Hlen; try done.
  rewrite setup_events_cons. simpl in Hlen.
  rewrite omap_app, IH by lia. unfold meter_events.
  rewrite omap_app. simpl.
  assert (omap api_called (map EntityBuilt
            (sensors_for_meter w m l (values r))) = []) as ->.
  { by induction (sensors_for_meter w m l (values r)). }
  done.
Qed.

(** X5.  A setup that succeeds asks the cloud for the last reading once
    per meter, in the order of the meter list, each time with that
    meter's id. *)
Theorem setup_fetches_each_meter_once entry w rs a :
  first_fetches (cloud w) (data_meters w) = Some (rs, a) ->
  omap api_called
    (drop (length (trace w)) (trace (async_setup_entry entry w).2))
  = map get_meter_id (data_meters w)
  /\ cloud (async_setup_entry entry w).2 = a.
Proof.
  intros Hf. rewrite (async_setup_entry_Ok _ _ _ _ Hf). simpl.
  split; [|done].
  rewrite drop_app_length, omap_app. simpl. rewrite app_nil_r.
  apply api_called_setup_events. by eapply first_fetches_length.
Qed.

(** ** A setup that meets a failed fetch *)

Lemma for_each_app {S A B} (f : A -> B -> M S A) (l1 l2 : list B) :
  forall a s,
    for_each f a (l1 ++ l2) s
    = bind (for_each f a l1) (fun a' => for_each f a' l2) s.
Proof.
  induction l1 as [|x l1 IH]; intros a s; simpl; [done|].
  unfold bind.
  destruct (f a x s) as [[a'|e|] s1]; [|done..].
  rewrite IH. done.
Qed.

Lemma first_fetches_None a meters :
  first_fetches a meters = None ->
  exists pre m post rs a1 err a2,
    meters = pre ++ m :: post
    /\ first_fetches a pre = Some (rs, a1)
    /\ get_last_reading a1 (get_meter_id m) = (Failed err, a2).
Proof.
  revert a. induction meters as [|m meters IH]; intros a; simpl; [done|].
  destruct (get_last_reading a (get_meter_id m)) as [[r|err] a1] eqn:Hget.
  - destruct (first_fetches a1 meters) as [[rs a2]|] eqn:Hrest; [done|].
    intros _.
    destruct (IH a1 Hrest)
      as (pre & m' & post & rs & a2 & err & a3 & -> & Hpre & Hfail).
    exists (m :: pre), m', post, (r :: rs), a2, err, a3.
    simpl. rewrite Hget, Hpre. done.
  - intros _. exists [], m, meters, [], a, err, a1. done.
Qed.

Lemma async_setup_entry_failed_fetch entry w pre m post rs a1 err a2 :
  data_meters w = pre ++ m :: post ->
  first_fetches (cloud w) pre = Some (rs, a1) ->
  get_last_reading a1 (get_meter_id m) = (Failed err, a2) ->
  async_setup_entry entry w =
    (Raise (host_error err),
     {| cloud := a2;
        gas_sensors := gas_sensors w;
        electricity_sensors := electricity_sensors w;
        heap := (heap w ++
                 zip_with
                   (refreshed_coordinator entry
                      (min_time_between_updates entry)) pre rs)
                ++ [failed_coordinator entry
                      (min_time_between_updates entry) m];
        data_meters := data_meters w;
        data_coordinators :=
          setup_stored (length (heap w)) pre (data_coordinators w);
        added := added w;
        trace := trace w ++ setup_events w (length (heap w)) pre rs
                 ++ [CoordinatorCreated (length (heap w) + length pre) m;
                     ApiCalled (get_meter_id m)] |}).
Proof.
  intros Hms Hpre Hfail.
  pose proof (first_fetches_length _ _ _ _ Hpre) as Hlen.
  unfold async_setup_entry.
  unfold bind at 1. unfold gets at 1. rewrite Hms.
  unfold bind at 1. rewrite for_each_app.
  unfold bind at 1. rewrite (meter_loop_Ok _ _ _ _ _ _ _ Hpre).
  simpl for_each. unfold bind at 1.
  erewrite setup_meter_Raise by (simpl; exact Hfail).
  simpl. rewrite length_app, length_zip_with.
  replace (length pre `min` length rs) with (length pre) by lia.
  rewrite <- Hms. world_eq.
Qed.

(** X4.  A failed first fetch ends the whole setup: the routine is left
    through an exception, [async_add_entities] is not called, the cloud
    is not asked about the meters after the failing one and no
    coordinator is created for them; the meters before it keep their
    entries in [data.coordinators], the failing one gets none. *)
Theorem setup_stops_at_failed_fetch entry w pre m post rs a1 err a2 :
  data_meters w = pre ++ m :: post ->
  first_fetches (cloud w) pre = Some (rs, a1) ->
  get_last_reading a1 (get_meter_id m) = (Failed err, a2) ->
  (exists ex, (async_setup_entry entry w).1 = Raise ex)
  /\ added (async_setup_entry entry w).2 = added w
  /\ cloud (async_setup_entry entry w).2 = a2
  /\ omap api_called
       (drop (length (trace w)) (trace (async_setup_entry entry w).2))
     = map get_meter_id (pre ++ [m])
  /\ length (heap (async_setup_entry entry w).2)
     = length (heap w) + length pre + 1
  /\ data_coordinators (async_setup_entry entry w).2
     = setup_stored (length (heap w)) pre (data_coordinators w)
  /\ (~ In (get_meter_id m) (map get_meter_id pre) ->
      data_coordinators (async_setup_entry entry w).2 !! get_meter_id m
      = data_coordinators w !! get_meter_id m).
Proof.
  intros Hms Hpre Hfail.
  pose proof (first_fetches_length _ _ _ _ Hpre) as Hlen.
  rewrite (async_setup_entry_failed_fetch _ _ _ _ _ _ _ _ _ Hms Hpre Hfail).
  simpl. split_and!; try done.
  - by eexists.
  - rewrite drop_app_length, omap_app, map_app. simpl.
    by rewrite api_called_setup_events.
  - rewrite !length_app, length_zip_with. simpl. lia.
  - intros Hnew. by apply setup_stored_other.
Qed.

(** ** What [data.coordinators] holds *)

Lemma setup_stored_inv meters : forall l d id x,
  setup_stored l meters d !! id = Some x ->
  d !! id = Some x \/ exists i, i < length meters /\ x = l + i.
Proof.
  induction meters as [|m meters IH]; intros l d id x Hx; simpl in *;
    [by left|].
  apply IH in Hx as [Hx|(i & Hi & ->)].
  - destruct (decide (get_meter_id m = id)) as [<-|Hne].
    + rewrite lookup_insert_eq in Hx. injection Hx as <-.
      right. exists 0. split; lia.
    + rewrite lookup_insert_ne in Hx by done. by left.
  - right. exists (S i). split; lia.
Qed.

Lemma setup_stored_last meters : forall l d i m,
  meters !! i = Some m ->
  (forall j m', i < j -> meters !! j = Some m' ->
                get_meter_id m' <> get_meter_id m) ->
  setup_stored l meters d !! get_meter_id m = Some (l + i).
Proof.
  induction meters as [|m0 meters IH]; intros l d i m Hm Hlast;
    simpl in *; [done|].
  destruct i as [|i]; simpl in *.
  - injection Hm as ->. rewrite setup_stored_other.
    + by rewrite lookup_insert_eq, Nat.add_0_r.
    + intros (m' & Hid & Hin)%in_map_iff.
      apply list_elem_of_In, list_elem_of_lookup in Hin as [j Hj].
      by apply (Hlast (S j) m'); [lia| |].
  - rewrite Nat.add_succ_r. apply (IH (S l)); [done|].
    intros j m' Hj Hm'. apply (Hlast (S j) m'); [lia|done].
Qed.

(** X6.  After a setup that succeeds, [data.coordinators] maps the id of
    every meter of the list to the coordinator of the last meter with
    that id (so to the meter's own coordinator when no later meter has
    the same id), and keeps its entries for all other ids. *)
Theorem setup_stores_last_coordinator_per_id entry w rs a :
  first_fetches (cloud w) (data_meters w) = Some (rs, a) ->
  (forall i m,
     data_meters w !! i = Some m ->
     (forall j m', i < j -> data_meters w !! j = Some m' ->
                   get_meter_id m' <> get_meter_id m) ->
     data_coordinators (async_setup_entry entry w).2 !! get_meter_id m
     = Some (length (heap w) + i))
  /\ (forall id,
        ~ In id (map get_meter_id (data_meters w)) ->
        data_coordinators (async_setup_entry entry w).2 !! id
        = data_coordinators w !! id).
Proof.
  intros Hf. rewrite (async_setup_entry_Ok _ _ _ _ Hf). simpl. split.
  - intros i m Hm Hlast. by apply setup_stored_last.
  - intros id Hid. by apply setup_stored_other.
Qed.

Lemma async_refresh_data_coordinators l w :
  data_coordinators (async_refresh l w).2 = data_coordinators w.
Proof.
  unfold async_refresh, bind, deref.
  destruct (heap w !! l) as [c|]; [|done].
  unfold try_except, bind. rewrite async_update_data_eq. simpl.
  by destruct (get_last_reading (cloud w) (get_meter_id (update_meter c)))
    as [[r|err] a].
Qed.

Lemma step_stored_ok w w' : step w w' -> stored_ok w -> stored_ok w'.
Proof.
  intros Hstep Hok. destruct Hstep as [entry w|l w|e0 w].
  - destruct (first_fetches (cloud w) (data_meters w)) as [[rs a]|] eqn:Hf.
    + pose proof (first_fetches_length _ _ _ _ Hf) as Hlen.
      rewrite (async_setup_entry_Ok _ _ _ _ Hf). intros id x Hx.
      simpl in *. apply setup_stored_inv in Hx as [Hx|(i & Hi & ->)].
      * destruct (Hok id x Hx) as (c & r & Hc & Hd). exists c, r.
        split; [|done]. by apply lookup_app_l_Some.
      * destruct (lookup_lt_is_Some_2 (data_meters w) i Hi) as [m Hm].
        destruct (lookup_lt_is_Some_2 rs i) as [r Hr]; [lia|].
        eexists _, r. split; [by apply setup_heap_new|done].
    + apply first_fetches_None in Hf
        as (pre & m & post & rs & a1 & err & a2 & Hms & Hpre & Hfail).
      pose proof (first_fetches_length _ _ _ _ Hpre) as Hlen.
      rewrite (async_setup_entry_failed_fetch _ _ _ _ _ _ _ _ _
                 Hms Hpre Hfail).
      intros id x Hx. simpl in *.
      apply setup_stored_inv in Hx as [Hx|(i & Hi & ->)].
      * destruct (Hok id x Hx) as (c & r & Hc & Hd). exists c, r.
        split; [|done]. by apply lookup_app_l_Some, lookup_app_l_Some.
      * destruct (lookup_lt_is_Some_2 pre i Hi) as [m' Hm'].
        destruct (lookup_lt_is_Some_2 rs i) as [r Hr]; [lia|].
        eexists _, r.
        split; [by apply lookup_app_l_Some, setup_heap_new|done].
  - intros id x Hx.
    rewrite async_refresh_data_coordinators in Hx.
    destruct (Hok id x Hx) as (c & r & Hc & Hd).
    destruct (async_refresh_heap l w) as (f & -> & Hf).
    destruct (decide (x = l)) as [->|Hne].
    + destruct (Hf c) as [r' Hr']; [by eexists|].
      exists (f c), r'. split; [|done].
      by rewrite list_lookup_alter_eq, Hc.
    + exists c, r. split; [|done]. by rewrite list_lookup_alter_ne.
  - by rewrite native_value_pure.
Qed.

(** X7.  In every world that runs reach, each entry of
    [data.coordinators] leads to a coordinator that holds a reading:
    a coordinator is stored only after its first refresh has succeeded,
    and a later poll never takes its reading away. *)
Theorem stored_coordinators_hold_a_reading w :
  reachable w -> stored_ok w.
Proof.
  intros (a & meters & Hrtc). revert w Hrtc.
  apply (rtc_ind_r (fun w => stored_ok w)); [by intros id l Hl|].
  intros w1 w2 _ Hstep IH. by apply (step_stored_ok w1).
Qed.

(** ** How the entities of a setup differ *)

Lemma table_keys_distinct :
  NoDup (flat_map keys_of GAS_SENSORS)
  /\ NoDup (flat_map keys_of ELECTRICITY_SENSORS)
  /\ NoDup (map key GAS_SENSORS)
  /\ NoDup (map key ELECTRICITY_SENSORS).
Proof.
  split_and!; apply (bool_decide_unpack _); by vm_compute.
Qed.

Lemma reachable_table_keys w t :
  reachable w ->
  NoDup (flat_map keys_of (table t w)) /\ NoDup (map key (table t w)).
Proof.
  intros [= Hg He]%reachable_tables.
  destruct table_keys_distinct as (H1 & H2 & H3 & H4).
  destruct t; simpl; rewrite ?Hg, ?He; by split.
Qed.

Lemma sensors_for_description_keys meter l t vals d :
  map (fun e => (coordinator e, data_key e))
    (sensors_for_description meter l t vals d)
  = map (pair l) (List.filter (fun k => key_in k vals) (keys_of d.2)).
Proof.
  unfold sensors_for_description. rewrite map_map. by apply map_ext.
Qed.

Lemma sensors_for_table_keys meter l t vals ds : forall g : nat -> nat,
  map (fun e => (coordinator e, data_key e))
    (flat_map (sensors_for_description meter l t vals)
       (imap (fun i d => (g i, d)) ds))
  = map (pair l)
      (List.filter (fun k => key_in k vals) (flat_map keys_of ds)).
Proof.
  induction ds as [|d ds IH]; intros g; [done|].
  rewrite imap_cons. cbn [flat_map].
  rewrite map_app, List.filter_app, map_app.
  rewrite sensors_for_description_keys. f_equal.
  apply (IH (fun i => g (S i))).
Qed.

Lemma sensors_for_meter_keys w meter l vals :
  map (fun e => (coordinator e, data_key e))
    (sensors_for_meter w meter l vals)
  = match select_sensors meter with
    | Some t =>
        map (pair l)
          (List.filter (fun k => key_in k vals)
             (flat_map keys_of (table t w)))
    | None => []
    end.
Proof.
  unfold sensors_for_meter. destruct (select_sensors meter) as [t|]; [|done].
  apply (sensors_for_table_keys meter l t vals (table t w) (fun i => i)).
Qed.

Lemma setup_entities_keys_NoDup w meters : forall l rs,
  (forall t, NoDup (flat_map keys_of (table t w))) ->
  NoDup (map (fun e => (coordinator e, data_key e))
           (setup_entities w l meters rs)).
Proof.
  induction meters as [|m meters IH]; intros l [|r rs] Hnd; simpl;
    try apply NoDup_nil_2.
  rewrite map_app. apply NoDup_app. split_and!.
  - rewrite sensors_for_meter_keys.
    destruct (select_sensors m) as [t|]; [|apply NoDup_nil_2].
    apply NoDup_ListNoDup, Finite.Injective_map_NoDup;
      [by intros k1 k2 [= ->]|].
    apply List.NoDup_filter, NoDup_ListNoDup, Hnd.
  - intros [l' k] Hin1 Hin2.
    apply list_elem_of_In, in_map_iff in Hin1 as (e1 & [= <- <-] & He1).
    apply list_elem_of_In, in_map_iff in Hin2 as (e2 & [= Hl Hk] & He2).
    apply sensors_for_meter_coordinator in He1.
    apply in_setup_entities in He2 as (i & m2 & r2 & _ & _ & He2).
    apply sensors_for_meter_coordinator in He2. lia.
  - by apply IH.
Qed.

(** X2.  In a reachable world a setup never hands over two entities on
    one coordinator with the same [data_key]: no value of a reading is
    exposed twice for a meter of the list. *)
Theorem setup_one_entity_per_data_key entry w rs a :
  reachable w ->
  first_fetches (cloud w) (data_meters w) = Some (rs, a) ->
  exists es,
    added (async_setup_entry entry w).2 = added w ++ [(es, false)]
    /\ NoDup (map (fun e => (coordinator e, data_key e)) es).
Proof.
  intros Hreach Hf. rewrite (async_setup_entry_Ok _ _ _ _ Hf). simpl.
  eexists. split; [done|].
  apply setup_entities_keys_NoDup. intros t.
  by apply reachable_table_keys.
Qed.

Lemma append_cancel (s a b : string) : s +:+ a = s +:+ b -> a = b.
Proof.
  induction s as [|c s IH]; simpl; [done|]. intros [= H']. by apply IH.
Qed.

Lemma NoDup_map_lookup {A B} (f : A -> B) (xs : list A) : forall i j x y,
  NoDup (map f xs) -> xs !! i = Some x -> xs !! j = Some y ->
  f x = f y -> i = j.
Proof.
  induction xs as [|z xs IH]; intros i j x y Hnd Hi Hj Hxy; [done|].
  simpl in Hnd. apply NoDup_cons in Hnd as [Hz Hnd].
  destruct i as [|i], j as [|j]; simpl in *; try done.
  - injection Hi as ->. exfalso. apply Hz.
    apply list_elem_of_In, in_map_iff. exists y. split; [done|].
    by apply list_elem_of_In, list_elem_of_lookup_2 with j.
  - injection Hj as ->. exfalso. apply Hz.
    apply list_elem_of_In, in_map_iff. exists x. split; [done|].
    by apply list_elem_of_In, list_elem_of_lookup_2 with i.
  - f_equal. by eapply IH.
Qed.

(** X3.  In a reachable world, two entities that a setup builds on one
    coordinator have the same unique id exactly when they refer to the
    same description: different descriptions of a meter never collide,
    and every collision is one of a description matched on two keys. *)
Theorem setup_unique_id_collisions entry w rs a :
  reachable w ->
  first_fetches (cloud w) (data_meters w) = Some (rs, a) ->
  exists es,
    added (async_setup_entry entry w).2 = added w ++ [(es, false)]
    /\ forall e1 e2,
         In e1 es -> In e2 es -> coordinator e1 = coordinator e2 ->
         (unique_id e1 = unique_id e2
          <-> entity_description e1 = entity_description e2).
Proof.
  intros Hreach Hf. rewrite (async_setup_entry_Ok _ _ _ _ Hf). simpl.
  eexists. split; [done|].
  intros e1 e2
    (i1 & m1 & r1 & t1 & j1 & d1 & k1 & Hm1 & Hr1 & Ht1 & Hd1 & _ & _ & ->)
      %in_setup_entities_inv
    (i2 & m2 & r2 & t2 & j2 & d2 & k2 & Hm2 & Hr2 & Ht2 & Hd2 & _ & _ & ->)
      %in_setup_entities_inv.
  simpl. intros Hi. assert (i2 = i1) as -> by lia.
  rewrite Hm1 in Hm2. injection Hm2 as <-.
  rewrite Ht1 in Ht2. injection Ht2 as <-.
  split.
  - intros Hkey%append_cancel%append_cancel. f_equal.
    destruct (reachable_table_keys w t1 Hreach) as [_ Hnd].
    by apply (NoDup_map_lookup key (table t1 w) j1 j2 d1 d2).
  - intros [= <-]. rewrite Hd1 in Hd2. by injection Hd2 as <-.
Qed.

(** X8.  When the measurement types of the meters are ASCII text, the
    entities that a setup builds on one coordinator carry the same
    device information (identifiers, name, model, manufacturer), that of
    their meter, so that the host groups them under one device.  The
    name starts with the capitalized measurement type; [capitalize] is
    [str.capitalize] on ASCII text only, hence the hypothesis.  The
    meter of an entity is of type ["ELECTRICITY"] or ["GAS"], and the
    name starts with ["Electricity"] or ["Gas"]. *)
Theorem setup_one_device_per_meter entry w rs a :
  forallb (fun m => isascii (measurement_type m)) (data_meters w) = true ->
  first_fetches (cloud w) (data_meters w) = Some (rs, a) ->
  exists es,
    added (async_setup_entry entry w).2 = added w ++ [(es, false)]
    /\ (forall e, In e es ->
          exists i m,
            data_meters w !! i = Some m
            /\ coordinator e = length (heap w) + i
            /\ device_info e =
               {| identifiers := [(DOMAIN, get_meter_id m)];
                  device_name :=
                    capitalize (measurement_type m) +:+ " "
                      +:+ street (location m) +:+ " "
                      +:+ street_number (location m);
                  model := meter_type m +:+ " " +:+ full_serial_number m;
                  manufacturer := MANUFACTURER |}
            /\ (measurement_type m = "ELECTRICITY"
                \/ measurement_type m = "GAS")
            /\ device_name (device_info e) =
               (if bool_decide (measurement_type m = "ELECTRICITY")
                then "Electricity" else "Gas") +:+ " "
                 +:+ street (location m) +:+ " "
                 +:+ street_number (location m))
    /\ (forall e1 e2,
          In e1 es -> In e2 es -> coordinator e1 = coordinator e2 ->
          device_info e1 = device_info e2).
Proof.
  intros _ Hf. rewrite (async_setup_entry_Ok _ _ _ _ Hf). simpl.
  eexists. split; [done|]. split.
  - intros e
      (i & m & r & t & j & d & k & Hm & Hr & Ht & Hd & _ & _ & ->)
        %in_setup_entities_inv.
    exists i, m. split_and!; try done.
    + apply select_sensors_Some in Ht. tauto.
    + simpl. by apply select_sensors_Some in Ht as [[-> _]|[-> _]].
  - intros e1 e2
      (i1 & m1 & r1 & t1 & j1 & d1 & k1 & Hm1 & _ & _ & _ & _ & _ & ->)
        %in_setup_entities_inv
      (i2 & m2 & r2 & t2 & j2 & d2 & k2 & Hm2 & _ & _ & _ & _ & _ & ->)
        %in_setup_entities_inv.
    simpl. intros Hi. assert (i2 = i1) as -> by lia.
    rewrite Hm1 in Hm2. by injection Hm2 as <-.
Qed.
(** ** The float a sensor reports *)

Lemma iter_shr_1_nonneg p : forall mrs,
  (0 <= shr_m mrs)%Z -> (0 <= shr_m (SpecFloat.iter_pos shr_1 p mrs))%Z.
Proof.
  induction p as [p IH|p IH|]; intros mrs Hm; simpl.
  - apply IH, IH. by apply shr_1_nonneg.
  - by apply IH, IH.
  - by apply shr_1_nonneg.
Qed.

Lemma shr_fexp_nonneg mx ex lx :
  (0 <= mx)%Z -> (0 <= shr_m (shr_fexp prec emax mx ex lx).1)%Z.
Proof.
  intros Hm. unfold shr_fexp, shr.
  assert (0 <= shr_m (shr_record_of_loc mx lx))%Z as H0.
  { by destruct lx as [|[]]. }
  destruct (_ - ex)%Z; simpl; try done.
  by apply iter_shr_1_nonneg.
Qed.

Lemma round_nearest_even_nonneg mx lx :
  (0 <= mx)%Z -> (0 <= round_nearest_even mx lx)%Z.
Proof.
  intros Hm. unfold round_nearest_even.
  destruct lx as [|[]]; try done; [destruct (Z.even mx)|]; lia.
Qed.

Lemma binary_round_aux_cases sx mx ex lx :
  (0 <= mx)%Z ->
  match binary_round_aux prec emax sx mx ex lx with
  | S754_zero s | S754_infinity s | S754_finite s _ _ => s = sx
  | S754_nan => False
  end.
Proof.
  intros Hm. unfold binary_round_aux.
  pose proof (shr_fexp_nonneg mx ex lx Hm) as H1.
  destruct (shr_fexp prec emax mx ex lx) as [mrs' e'].
  simpl in H1.
  pose proof (shr_fexp_nonneg
                (round_nearest_even (shr_m mrs') (loc_of_shr_record mrs'))
                e' loc_Exact
                (round_nearest_even_nonneg _ _ H1)) as H2.
  destruct (shr_fexp prec emax _ e' loc_Exact) as [mrs'' e''].
  simpl in H2.
  destruct (shr_m mrs'') as [|p|p]; [done| |lia].
  by destruct (e'' <=? emax - prec)%Z.
Qed.

Lemma SFdiv_core_binary_nonneg pa pb :
  (0 <= (SFdiv_core_binary prec emax (Zpos pa) 0 (Zpos pb) 0).1.1)%Z.
Proof.
  unfold SFdiv_core_binary.
  set (s := (_ - _ - _)%Z).
  set (m' := match s with Zpos _ => _ | Z0 => _ | Zneg _ => _ end).
  assert (0 <= m')%Z as Hm'.
  { subst m'. destruct s; try lia. apply Z.shiftl_nonneg. lia. }
  pose proof (Z.div_pos m' (Zpos pb) Hm' ltac:(lia)) as Hq.
  unfold Z.div in Hq.
  destruct (Z.div_eucl m' (Z.pos pb)) as [q r]. done.
Qed.

Lemma int_true_divide_number a b :
  b <> 0%Z ->
  match int_true_divide a b with
  | Ok x =>
      is_number x = true
      /\ sign_bit x = Some (xorb (a <? 0)%Z (b <? 0)%Z)
  | Raise ex => exn_cls ex = OverflowError
  | Stuck => False
  end.
Proof.
  intros Hb. unfold int_true_divide.
  apply Z.eqb_neq in Hb. rewrite Hb.
  destruct a as [|ma|ma]; [done| |];
    unfold SFdiv; simpl Z.abs; simpl Z.to_pos;
    destruct b as [|mb|mb]; try done; simpl Z.abs; simpl Z.to_pos;
    pose proof (SFdiv_core_binary_nonneg ma mb) as Hq;
    destruct (SFdiv_core_binary prec emax (Z.pos ma) 0 (Z.pos mb) 0)
      as [[mz ez] lz]; simpl in Hq;
    match goal with
    | |- context [binary_round_aux prec emax ?s mz ez lz] =>
        pose proof (binary_round_aux_cases s mz ez lz Hq) as Hr;
        destruct (binary_round_aux prec emax s mz ez lz)
    end; simpl in *; try done; by subst.
Qed.

(** After [shr_fexp] the mantissa is still non-negative, the exponent is
    at most 971 and the number has not grown. *)
Lemma shr_fexp_bound mx ex lx :
  (0 <= mx -> Zdigits2 mx + ex <= 1024 -> ex <= 971 ->
   let res := shr_fexp prec emax mx ex lx in
   0 <= shr_m res.1
   /\ Zdigits2 (shr_m res.1) + res.2 <= Z.max (Zdigits2 mx + ex) 971
   /\ res.2 <= 971)%Z.
Proof.
  intros Hm Hd He. unfold shr_fexp, shr, fexp, emin, prec, emax.
  assert (shr_m (shr_record_of_loc mx lx) = mx) as Hrec.
  { by destruct lx as [|[]]. }
  pose proof (Zdigits2_nonneg mx Hm) as Hdn.
  destruct (Z.max (Zdigits2 mx + ex - 53) (3 - 1024 - 53) - ex)%Z
    as [|p|p] eqn:Hn; simpl; rewrite ?Hrec.
  - split; [done|]. lia.
  - destruct (iter_shr_1_digits p (shr_record_of_loc mx lx)) as [H1 D1];
      [by rewrite Hrec|].
    rewrite Hrec in D1. split; [done|]. rewrite D1. lia.
  - split; [done|]. lia.
Qed.

Lemma round_nearest_even_digits mx lx :
  (0 <= mx ->
   0 <= round_nearest_even mx lx
   /\ Zdigits2 (round_nearest_even mx lx) <= Zdigits2 mx + 1)%Z.
Proof.
  intros Hm. pose proof (Zdigits2_succ mx Hm) as Hs.
  unfold round_nearest_even.
  destruct lx as [|[]]; try (split; lia);
    destruct (Z.even mx); split; lia.
Qed.

Lemma binary_round_aux_fits sx mx ex lx :
  (0 <= mx -> Zdigits2 mx + ex <= 1023 -> ex <= 971 ->
   match binary_round_aux prec emax sx mx ex lx with
   | S754_zero s | S754_finite s _ _ => s = sx
   | S754_infinity _ | S754_nan => False
   end)%Z.
Proof.
  intros Hm Hd He. unfold binary_round_aux.
  destruct (shr_fexp_bound mx ex lx Hm ltac:(lia) He) as (H1 & D1 & E1).
  destruct (shr_fexp prec emax mx ex lx) as [mrs' e']. simpl in *.
  destruct (round_nearest_even_digits (shr_m mrs') (loc_of_shr_record mrs') H1)
    as [H2 D2].
  destruct (shr_fexp_bound
              (round_nearest_even (shr_m mrs') (loc_of_shr_record mrs'))
              e' loc_Exact H2 ltac:(lia) E1) as (H3 & D3 & E3).
  destruct (shr_fexp prec emax _ e' loc_Exact) as [mrs'' e'']. simpl in *.
  destruct (shr_m mrs'') as [|p|p]; [done| |lia].
  unfold emax, prec. replace (e'' <=? 1024 - 53)%Z with true by lia. done.
Qed.

Lemma SFdiv_core_binary_bound pa pb :
  (Zdigits2 (Zpos pa) <= 1023 ->
   let res := SFdiv_core_binary prec emax (Zpos pa) 0 (Zpos pb) 0 in
   0 <= res.1.1
   /\ Zdigits2 res.1.1 + res.1.2 <= 1023
   /\ res.1.2 <= 971)%Z.
Proof.
  intros Hd. unfold SFdiv_core_binary.
  set (e' := Z.min _ _).
  assert (e' <= 0)%Z as He' by (subst e'; lia).
  set (sh := (0 - 0 - e')%Z).
  assert (sh = - e')%Z as Hsh by (subst sh; lia).
  set (m' := match sh with Zpos _ => _ | Z0 => _ | Zneg _ => _ end).
  assert (0 <= m' /\ Zdigits2 m' = Zdigits2 (Zpos pa) + sh)%Z as [Hm' Dm'].
  { subst m'. destruct sh as [|p|p] eqn:Hp; [split; lia| |lia].
    split; [apply Z.shiftl_nonneg; lia|].
    apply Zdigits2_shiftl. lia. }
  pose proof (Z.div_pos m' (Zpos pb) Hm' ltac:(lia)) as Hq.
  assert (m' / Zpos pb <= m')%Z as Hle.
  { apply Z.div_le_upper_bound; [lia|nia]. }
  pose proof (Zdigits2_mono _ _ (conj Hq Hle)) as Dq.
  unfold Z.div in *.
  destruct (Z.div_eucl m' (Z.pos pb)) as [q rem]. simpl in *.
  split; [done|]. split; lia.
Qed.

Lemma int_true_divide_Ok a b :
  (b <> 0 -> Z.abs a < 2 ^ 1023 ->
   exists x, int_true_divide a b = Ok x
             /\ is_number x = true
             /\ sign_bit x = Some (xorb (a <? 0) (b <? 0)))%Z.
Proof.
  intros Hb Ha. unfold int_true_divide.
  apply Z.eqb_neq in Hb. rewrite Hb.
  destruct a as [|pa|pa]; [by eexists| |];
    unfold SFdiv; simpl Z.abs in *; simpl Z.to_pos;
    destruct b as [|pb|pb]; try done; simpl Z.abs; simpl Z.to_pos;
    (destruct (SFdiv_core_binary_bound pa pb) as (Hq & Dq & Eq);
       [by apply Zdigits2_lt_pow2|]);
    destruct (SFdiv_core_binary prec emax (Z.pos pa) 0 (Z.pos pb) 0)
      as [[mz ez] lz]; simpl in Hq, Dq, Eq;
    match goal with
    | |- context [binary_round_aux prec emax ?s mz ez lz] =>
        pose proof (binary_round_aux_fits s mz ez lz Hq Dq Eq) as Hr;
        destruct (binary_round_aux prec emax s mz ez lz)
    end; try done; eexists; (split; [reflexivity|]); simpl in *; by subst.
Qed.

(** X9.  For a raw value that is an int, and an entity on one of the
    table descriptions, [native_value] is a number with the sign of the
    raw value, never NaN and never an infinity; it raises
    [OverflowError] instead only for a raw value of magnitude 2^1023 or
    more, and raises nothing else. *)
Theorem native_value_of_int_is_a_number w self c r n d :
  reachable w ->
  heap w !! coordinator self = Some c ->
  data c = Some r ->
  values r !! data_key self = Some (PyInt n) ->
  table (entity_description self).1 w !! (entity_description self).2
    = Some d ->
  match (native_value self w).1 with
  | Ok x => is_number x = true /\ sign_bit x = Some (n <? 0)%Z
  | Raise ex => exn_cls ex = OverflowError /\ (2 ^ 1023 <= Z.abs n)%Z
  | Stuck => False
  end.
Proof.
  intros Hreach Hc Hd Hraw Href.
  assert (0 < scale d)%Z as Hpos.
  { pose proof table_scales as Hscales. rewrite Forall_forall in Hscales.
    apply (Hscales d).
    apply reachable_tables in Hreach as [= Hg He].
    apply list_elem_of_In, in_app_iff.
    destruct (entity_description self) as [[|] j]; simpl in Href;
      rewrite ?Hg, ?He in Href;
      apply list_elem_of_lookup_2, list_elem_of_In in Href; tauto. }
  assert (xorb (n <? 0)%Z (scale d <? 0)%Z = (n <? 0)%Z) as Hxor.
  { replace (scale d <? 0)%Z with false by lia. apply xorb_false_r. }
  rewrite native_value_cases, Hc, Hd, Hraw, Href. simpl.
  destruct (Z_lt_dec (Z.abs n) (2 ^ 1023)) as [Hsmall|Hbig].
  - destruct (int_true_divide_Ok n (scale d) ltac:(lia) Hsmall)
      as (x & -> & Hnum & Hsign).
    simpl. by rewrite <- Hxor.
  - pose proof (int_true_divide_number n (scale d) ltac:(lia)) as Hdiv.
    destruct (int_true_divide n (scale d)) as [x|ex|]; simpl;
      [|split; [done|lia]|done].
    destruct Hdiv as [Hnum Hsign]. by rewrite <- Hxor.
Qed.

(** X10.  For an entity whose coordinator holds a reading and whose
    description is in the tables, [native_value] raises [KeyError]
    exactly when that reading has no value under the entity's
    [data_key] (as when a later poll fetches a reading without it). *)
Theorem native_value_KeyError_iff w self c r d :
  reachable w ->
  heap w !! coordinator self = Some c ->
  data c = Some r ->
  table (entity_description self).1 w !! (entity_description self).2
    = Some d ->
  raises KeyError (native_value self w).1
  <-> values r !! data_key self = None.
Proof.
  intros Hreach Hc Hd Href.
  destruct (values r !! data_key self) as [raw|] eqn:Hraw.
  - pose proof (native_value_key_present w self c r d Hreach Hc Hd
                  (mk_is_Some _ _ Hraw) Href) as Hres.
    split; [|done].
    destruct ((native_value self w).1) as [x|ex|]; simpl; [done| |done].
    by rewrite Hres.
  - rewrite native_value_cases, Hc, Hd, Hraw. simpl. done.
Qed.

(** ** The entities of one meter *)

Lemma filter_coordinator_none w meter l l' vals :
  l <> l' ->
  List.filter (fun e => bool_decide (coordinator e = l'))
    (sensors_for_meter w meter l vals) = [].
Proof.
  intros Hne.
  assert (forall e, In e (sensors_for_meter w meter l vals) ->
            bool_decide (coordinator e = l') = false) as Hall.
  { intros e He. apply sensors_for_meter_coordinator in He.
    apply bool_decide_eq_false. lia. }
  induction (sensors_for_meter w meter l vals) as [|e es IH]; [done|].
  simpl. rewrite Hall by (by left). apply IH.
  intros e' He'. apply Hall. by right.
Qed.

Lemma filter_coordinator_all w meter l vals :
  List.filter (fun e => bool_decide (coordinator e = l))
    (sensors_for_meter w meter l vals)
  = sensors_for_meter w meter l vals.
Proof.
  assert (forall e, In e (sensors_for_meter w meter l vals) ->
            bool_decide (coordinator e = l) = true) as Hall.
  { intros e He. apply sensors_for_meter_coordinator in He.
    by apply bool_decide_eq_true. }
  induction (sensors_for_meter w meter l vals) as [|e es IH]; [done|].
  simpl. rewrite Hall by (by left). f_equal. apply IH.
  intros e' He'. apply Hall. by right.
Qed.

Lemma setup_entities_above w meters : forall l l' rs,
  l' < l ->
  List.filter (fun e => bool_decide (coordinator e = l'))
    (setup_entities w l meters rs) = [].
Proof.
  induction meters as [|m0 meters IH]; intros l l' [|r0 rs] Hlt; simpl;
    try done.
  rewrite List.filter_app, filter_coordinator_none by lia.
  apply IH. lia.
Qed.

Lemma setup_entities_of_meter w meters : forall l rs i m r,
  meters !! i = Some m -> rs !! i = Some r ->
  List.filter (fun e => bool_decide (coordinator e = l + i))
    (setup_entities w l meters rs)
  = sensors_for_meter w m (l + i) (values r).
Proof.
  induction meters as [|m0 meters IH]; intros l [|r0 rs] i m r Hm Hr;
    try done.
  simpl. rewrite List.filter_app. destruct i as [|i]; simpl in *.
  - injection Hm as ->. injection Hr as ->. rewrite Nat.add_0_r.
    rewrite filter_coordinator_all, setup_entities_above by lia.
    by rewrite app_nil_r.
  - rewrite filter_coordinator_none by lia. simpl.
    rewrite Nat.add_succ_r. by apply (IH (S l)).
Qed.

(** X12.  The entities a setup builds on the coordinator of a meter are,
    in this order, one per table key that is in the meter's first
    reading: the data keys of these entities are the keys of the
    meter's table (description by description, the primary key before
    the alternative ones) with the absent ones left out; a meter with
    no table gets none. *)
Theorem setup_entities_of_meter_follow_table entry w rs a i m r :
  first_fetches (cloud w) (data_meters w) = Some (rs, a) ->
  data_meters w !! i = Some m ->
  rs !! i = Some r ->
  exists es,
    added (async_setup_entry entry w).2 = added w ++ [(es, false)]
    /\ map data_key
         (List.filter
            (fun e => bool_decide (coordinator e = length (heap w) + i))
            es)
       = match select_sensors m with
         | Some t =>
             List.filter (fun k => key_in k (values r))
               (flat_map keys_of (table t w))
         | None => []
         end.
Proof.
  intros Hf Hm Hr. rewrite (async_setup_entry_Ok _ _ _ _ Hf). simpl.
  eexists. split; [done|].
  rewrite (setup_entities_of_meter _ _ _ _ _ _ _ Hm Hr).
  transitivity
    (map snd
       (map (fun e => (coordinator e, data_key e))
          (sensors_for_meter w m (length (heap w) + i) (values r)))).
  { by rewrite map_map. }
  rewrite sensors_for_meter_keys.
  destruct (select_sensors m) as [t|]; [|done].
  rewrite map_map. simpl. apply map_id.
Qed.

(** ** A configuration without meters *)

(** X11.  With an empty meter list the setup creates no coordinator,
    does not ask the cloud, leaves [data.coordinators] as it is and
    calls [async_add_entities] once, with no entity. *)
Theorem setup_without_meters entry w :
  data_meters w = [] ->
  (async_setup_entry entry w).1 = Ok tt
  /\ added (async_setup_entry entry w).2 = added w ++ [([], false)]
  /\ heap (async_setup_entry entry w).2 = heap w
  /\ cloud (async_setup_entry entry w).2 = cloud w
  /\ data_coordinators (async_setup_entry entry w).2
     = data_coordinators w
  /\ trace (async_setup_entry entry w).2
     = trace w ++ [EntitiesAdded [] false].
Proof.
  intros Hms.
  assert (first_fetches (cloud w) (data_meters w) = Some ([], cloud w))
    as Hf by by rewrite Hms.
  rewrite (async_setup_entry_Ok _ _ _ _ Hf). simpl. rewrite Hms. simpl.
  by rewrite app_nil_r.
Qed.

End Theory.

(** * The sample installation *)

#[local] Existing Instance sample_api.
#[local] Existing Instance sample_const.

Lemma sample_first_fetches :
  first_fetches (cloud sample_world) (data_meters sample_world)
    = Some (sample_readings, 3).
Proof. reflexivity. Qed.

Lemma sample_world_reachable : reachable sample_world.
Proof. exists 0, (data_meters sample_world). apply rtc_refl. Qed.

Lemma sample_after_setup_reachable : reachable sample_after_setup.
Proof.
  exists 0, (data_meters sample_world). apply rtc_once.
  apply (step_setup sample_entry sample_world).
Qed.

(** C3.  The setup does not keep to one entity per meter and description:
    the reading of the sample electricity meter has both ["power1"] and
    its alternative ["phase1Power"], and the setup builds two entities
    from the one description [power1] for that meter, one per key, with
    the same unique id. *)
Theorem setup_two_sensors_for_one_description :
  (async_setup_entry sample_entry sample_world).1 = Ok tt
  /\ map (fun e => (coordinator e, entity_description e, data_key e,
                    unique_id e))
       (List.filter
          (fun e => bool_decide (coordinator e = 0
                                 /\ entity_description e
                                    = (ElectricityTable, 1)))
          (entities (async_setup_entry sample_entry sample_world).2))
     = [(0, (ElectricityTable, 1), "power1", "1ESY1161229886-power1");
        (0, (ElectricityTable, 1), "phase1Power", "1ESY1161229886-power1")].
Proof. split; vm_compute; reflexivity. Qed.

Lemma native_value_spec_witness :
  In sample_power_sensor (entities sample_after_setup)
  /\ entity_ok sample_after_setup sample_power_sensor
  /\ (native_value sample_power_sensor sample_after_setup).2
     = sample_after_setup
  /\ (native_value sample_power_sensor sample_after_setup).1
     = Ok (S754_finite false 4677322464559104 (-43))
  /\ binary64_round false 531750 1000
       (S754_finite false 4677322464559104 (-43)).
Proof.
  assert (In sample_power_sensor (entities sample_after_setup)) as Hin
    by (vm_compute; tauto).
  assert ((native_value sample_power_sensor sample_after_setup).1
          = Ok (S754_finite false 4677322464559104 (-43))) as Hval
    by (vm_compute; reflexivity).
  destruct (native_value_spec sample_after_setup sample_power_sensor)
    as [Hok Hspec].
  destruct (Hspec sample_electricity_coordinator sample_electricity_reading
              sample_power_description)
    as [Hstate Hres]; [vm_compute; reflexivity..|].
  change (values sample_electricity_reading
            !! data_key sample_power_sensor) with (Some (PyInt 531750))
    in Hres.
  rewrite Hval in Hres. destruct Hres as [_ Hround].
  split; [exact Hin|]. split; [exact (Hok sample_after_setup_reachable Hin)|].
  split; [exact Hstate|]. split; [exact Hval|exact Hround].
Defined.

Lemma setup_requires_key_in_first_reading_witness :
  first_fetches (cloud sample_world) (data_meters sample_world)
    = Some (sample_readings, 3)
  /\ (async_setup_entry sample_entry sample_world).1 = Ok tt.
Proof.
  split; [reflexivity|].
  apply (setup_requires_key_in_first_reading sample_entry sample_world
           sample_readings 3).
  reflexivity.
Defined.

Lemma async_update_data_channels_witness :
  (async_update_data sample_gas_meter sample_world).1 = Ok sample_gas_reading
  /\ exists msg,
       (async_update_data sample_gas_meter sample_after_setup).1
         = Raise (Exn ConfigEntryAuthFailed msg
                    (Some (Exn AccessTokenExpired "token expired" None))).
Proof.
  split.
  - exact (async_update_data_channels sample_gas_meter sample_world).
  - exact (async_update_data_channels sample_gas_meter sample_after_setup).
Defined.

Lemma setup_one_coordinator_per_meter_witness :
  first_fetches (cloud sample_world) (data_meters sample_world)
    = Some (sample_readings, 3)
  /\ (async_setup_entry sample_entry sample_world).1 = Ok tt
  /\ length (heap sample_after_setup) = 0 + 3.
Proof.
  split; [reflexivity|].
  destruct (setup_one_coordinator_per_meter sample_entry sample_world)
    as (_ & Hok & _).
  destruct (Hok sample_readings 3 eq_refl) as (Hres & Hlen & _).
  split; [exact Hres|exact Hlen].
Defined.

Lemma setup_table_by_measurement_type_witness :
  select_sensors sample_electricity_meter = Some ElectricityTable
  /\ select_sensors sample_gas_meter = Some GasTable
  /\ exists es,
       added sample_after_setup = added sample_world ++ [(es, false)]
       /\ In sample_power_sensor es
       /\ coordinator sample_power_sensor = 0
       /\ entity_description sample_power_sensor = (ElectricityTable, 0).
Proof.
  destruct (setup_table_by_measurement_type sample_entry sample_world
              sample_readings 3 sample_world_reachable sample_first_fetches)
    as (Helec & Hgas & _ & es & Hadded & _ & Hiff).
  split; [by apply Helec|]. split; [by apply Hgas|].
  exists es. split; [exact Hadded|].
  assert (In sample_power_sensor es
          /\ coordinator sample_power_sensor = length (heap sample_world) + 0)
    as [Hin _]; [|by split_and!].
  apply (Hiff 0 sample_electricity_meter sample_electricity_reading
           ElectricityTable ELECTRICITY_SENSORS); [done..|by left|].
  exists 0, sample_power_description, "power".
  split_and!; [reflexivity|by left|by eexists|reflexivity].
Defined.

Lemma descriptions_never_mutated_witness :
  tables sample_after_setup = (GAS_SENSORS, ELECTRICITY_SENSORS).
Proof.
  apply descriptions_never_mutated. apply sample_after_setup_reachable.
Defined.

Lemma unique_id_uses_primary_key_witness :
  exists self,
    (DiscovergySensor_init "phase1Power" (ElectricityTable, 1)
       {| key := "power1";
          translation_key := "phase_1_power";
          native_unit_of_measurement := WATT;
          suggested_display_precision := 3;
          device_class := POWER;
          state_class := MEASUREMENT;
          entity_registry_enabled_default := Some false;
          alternative_keys := ["phase1Power"];
          scale := DiscovergyMixin_scale |}
       sample_electricity_meter 0 sample_world).1 = Ok self
    /\ data_key self = "phase1Power"
    /\ unique_id self = "1ESY1161229886-power1".
Proof. apply unique_id_uses_primary_key. Defined.

Lemma native_value_never_divides_by_zero_witness :
  ~ raises ZeroDivisionError
      (native_value sample_power_sensor sample_after_setup).1.
Proof.
  eapply native_value_never_divides_by_zero;
    [apply sample_after_setup_reachable | vm_compute; reflexivity ..
    | by eexists | vm_compute; reflexivity].
Defined.

Lemma setup_unknown_measurement_type_witness :
  first_fetches (cloud sample_world) (data_meters sample_world)
    = Some (sample_readings, 3)
  /\ (async_setup_entry sample_entry sample_world).1 = Ok tt.
Proof.
  split; [reflexivity|].
  apply (setup_unknown_measurement_type sample_entry sample_world
           sample_readings 3).
  reflexivity.
Defined.

(** * The further properties on the sample installation *)

Lemma setup_builds_every_present_key_witness :
  exists es e,
    added sample_after_setup = added sample_world ++ [(es, false)]
    /\ In e es
    /\ coordinator e = length (heap sample_world) + 0
    /\ data_key e = "phase1Power"
    /\ entity_description e = (ElectricityTable, 1)
    /\ unique_id e
       = full_serial_number sample_electricity_meter +:+ "-"
           +:+ key sample_power1_description.
Proof.
  apply (setup_builds_every_present_key sample_entry sample_world
           sample_readings 3 0 sample_electricity_meter
           sample_electricity_reading ElectricityTable 1
           sample_power1_description "phase1Power");
    try reflexivity.
  - right. left. reflexivity.
  - vm_compute. by eexists.
Defined.

Lemma setup_one_entity_per_data_key_witness :
  exists es,
    added sample_after_setup = added sample_world ++ [(es, false)]
    /\ NoDup (map (fun e => (coordinator e, data_key e)) es).
Proof.
  apply (setup_one_entity_per_data_key sample_entry sample_world
           sample_readings 3 sample_world_reachable).
  reflexivity.
Defined.

Lemma setup_unique_id_collisions_witness :
  exists es,
    added sample_after_setup = added sample_world ++ [(es, false)]
    /\ forall e1 e2,
         In e1 es -> In e2 es -> coordinator e1 = coordinator e2 ->
         (unique_id e1 = unique_id e2
          <-> entity_description e1 = entity_description e2).
Proof.
  apply (setup_unique_id_collisions sample_entry sample_world
           sample_readings 3 sample_world_reachable).
  reflexivity.
Defined.

Lemma setup_stops_at_failed_fetch_witness :
  added (async_setup_entry sample_entry sample_after_setup).2
    = added sample_after_setup
  /\ length (heap (async_setup_entry sample_entry sample_after_setup).2)
     = length (heap sample_after_setup) + 0 + 1.
Proof.
  destruct (setup_stops_at_failed_fetch sample_entry sample_after_setup
              [] sample_electricity_meter
              [sample_gas_meter; sample_water_meter] [] 3
              (Exn AccessTokenExpired "token expired" None) 4)
    as (_ & Hadded & _ & _ & Hheap & _);
    [vm_compute; reflexivity..|].
  split; [exact Hadded|exact Hheap].
Defined.

Lemma setup_fetches_each_meter_once_witness :
  omap api_called
    (drop (length (trace sample_world)) (trace sample_after_setup))
  = map get_meter_id (data_meters sample_world)
  /\ cloud sample_after_setup = 3.
Proof.
  apply (setup_fetches_each_meter_once sample_entry sample_world
           sample_readings 3).
  reflexivity.
Defined.

Lemma setup_stores_last_coordinator_per_id_witness :
  data_coordinators sample_after_setup !! get_meter_id sample_gas_meter
  = Some (length (heap sample_world) + 1).
Proof.
  destruct (setup_stores_last_coordinator_per_id sample_entry sample_world
              sample_readings 3 sample_first_fetches) as [Hlast _].
  apply (Hlast 1 sample_gas_meter); [reflexivity|].
  intros [|[|[|j]]] m' Hj Hm'; try lia.
  - injection Hm' as <-. by vm_compute.
  - done.
Defined.

Lemma stored_coordinators_hold_a_reading_witness :
  stored_ok sample_after_setup.
Proof.
  apply stored_coordinators_hold_a_reading, sample_after_setup_reachable.
Defined.

Lemma setup_one_device_per_meter_witness :
  forallb (fun m => isascii (measurement_type m)) (data_meters sample_world)
    = true
  /\ exists es,
       added sample_after_setup = added sample_world ++ [(es, false)]
       /\ In sample_power_sensor es
       /\ device_name (device_info sample_power_sensor)
          = "Electricity Musterstrasse 1"
       /\ (forall e1 e2,
             In e1 es -> In e2 es -> coordinator e1 = coordinator e2 ->
             device_info e1 = device_info e2).
Proof.
  split; [reflexivity|].
  destruct (setup_one_device_per_meter sample_entry sample_world
              sample_readings 3 eq_refl sample_first_fetches)
    as (es & Hadded & Hinfo & Hsame).
  exists es. split; [exact Hadded|].
  assert (In sample_power_sensor es) as Hin.
  { change (added sample_after_setup)
      with (added sample_world ++ [(setup_entities sample_world 0
              (data_meters sample_world) sample_readings, false)])
      in Hadded.
    apply app_inv_head in Hadded. injection Hadded as <-.
    vm_compute. tauto. }
  split; [exact Hin|]. split; [|exact Hsame].
  destruct (Hinfo _ Hin) as (i & m & Hm & Hco & _ & _ & Hname).
  destruct i as [|i]; [|simpl in Hco; lia].
  injection Hm as <-. exact Hname.
Defined.

Lemma native_value_of_int_is_a_number_witness :
  match (native_value sample_power_sensor sample_after_setup).1 with
  | Ok x => is_number x = true /\ sign_bit x = Some (531750 <? 0)%Z
  | Raise ex => exn_cls ex = OverflowError /\ (2 ^ 1023 <= Z.abs 531750)%Z
  | Stuck => False
  end.
Proof.
  apply (native_value_of_int_is_a_number sample_after_setup
           sample_power_sensor sample_electricity_coordinator
           sample_electricity_reading 531750 sample_power_description
           sample_after_setup_reachable);
    vm_compute; reflexivity.
Defined.

Lemma native_value_KeyError_iff_witness :
  raises KeyError (native_value sample_power_sensor sample_after_setup).1
  <-> values sample_electricity_reading !! data_key sample_power_sensor
      = None.
Proof.
  apply (native_value_KeyError_iff sample_after_setup sample_power_sensor
           sample_electricity_coordinator sample_electricity_reading
           sample_power_description sample_after_setup_reachable);
    vm_compute; reflexivity.
Defined.

Lemma setup_without_meters_witness :
  (async_setup_entry sample_entry (module_load 7 [])).1 = Ok tt
  /\ added (async_setup_entry sample_entry (module_load 7 [])).2
     = [([], false)].
Proof.
  destruct (setup_without_meters sample_entry (module_load 7 []))
    as (Hres & Hadded & _); [reflexivity|].
  split; [exact Hres|exact Hadded].
Defined.

Lemma setup_entities_of_meter_follow_table_witness :
  exists es,
    added sample_after_setup = added sample_world ++ [(es, false)]
    /\ map data_key
         (List.filter
            (fun e => bool_decide
                        (coordinator e = length (heap sample_world) + 0))
            es)
       = ["power"; "power1"; "phase1Power"; "phase1Voltage"; "energy"].
Proof.
  destruct (setup_entities_of_meter_follow_table sample_entry sample_world
              sample_readings 3 0 sample_electricity_meter
              sample_electricity_reading)
    as (es & Hadded & Hkeys); [reflexivity..|].
  exists es. split; [exact Hadded|]. rewrite Hkeys. reflexivity.
Defined.

Lemma native_value_runs_witness :
  match (native_value sample_power_sensor sample_after_setup).1 with
  | Ok _ => True
  | Raise ex => exn_cls ex = KeyError \/ exn_cls ex = OverflowError
  | Stuck => False
  end.
Proof.
  apply (native_value_runs sample_after_setup sample_power_sensor
           sample_after_setup_reachable).
  vm_compute. left. reflexivity.
Defined.
